(** * gows: a ticker snapshot cache fed by one websocket subscription

    Shallow embedding of [main.go].  The package-level variables
    ([appConf], [currencies], [currencyInfoLock], [symbolToIndex]) become one
    record of globals that every function threads explicitly.  A Go [int]
    slot index is a [nat] (it only ever comes from [range] or from the map,
    which stores [range] indices); a [map[string]int] is a [gmap string nat];
    slices indexed in place are lists with stdpp's lookup and insert, with
    Go's out-of-range panic written out. *)

From stdpp Require Import base option list strings gmap fin_maps.
From Stdlib Require Import ZArith Lia.

(** ** Data model *)

(** [type appConfiguration struct] *)
Record appConfiguration := {
  Hostname : string;
  Port : string;
  Symbols : list string;
}.

(** [type currencyInfo struct]: the record served for one symbol. *)
Record currencyInfo := {
  ID : string;
  FullName : string;
  Ask : string;
  Bid : string;
  Last : string;
  Open : string;
  Low : string;
  High : string;
  FeeCurrency : string;
}.

(** The zero value of [currencyInfo], as [make([]currencyInfo, n)] fills it. *)
Definition zeroCurrencyInfo : currencyInfo :=
  {| ID := ""; FullName := ""; Ask := ""; Bid := ""; Last := "";
     Open := ""; Low := ""; High := ""; FeeCurrency := "" |}.

(** [type tickerUpdate struct]; the nested [Params] struct is flattened, a
    field [Params.Ask] is [Params_Ask].  [time.Time] is kept as an instant. *)
Record tickerUpdate := {
  tu_Jsonrpc : string;
  tu_Method : string;
  Params_Ask : string;
  Params_Bid : string;
  Params_Last : string;
  Params_Open : string;
  Params_Low : string;
  Params_High : string;
  Params_Volume : string;
  Params_VolumeQuote : string;
  Params_Timestamp : Z;
  Params_Symbol : string;
}.

(** [type getSymbolResponse struct], [Result] flattened. *)
Record getSymbolResponse := {
  gs_Jsonrpc : string;
  gs_Result_ID : string;
  gs_Result_BaseCurrency : string;
  gs_Result_QuoteCurrency : string;
  gs_Result_QuantityIncrement : string;
  gs_Result_TickSize : string;
  gs_Result_TakeLiquidityRate : string;
  gs_Result_ProvideLiquidityRate : string;
  gs_Result_FeeCurrency : string;
  gs_ID : Z;
}.

(** [type getCurrencyResponse struct], [Result] flattened. *)
Record getCurrencyResponse := {
  gc_Jsonrpc : string;
  gc_Result_ID : string;
  gc_Result_FullName : string;
  gc_Result_Crypto : bool;
  gc_Result_PayinEnabled : bool;
  gc_Result_PayinPaymentID : bool;
  gc_Result_PayinConfirmations : Z;
  gc_Result_PayoutEnabled : bool;
  gc_Result_PayoutIsPaymentID : bool;
  gc_Result_TransferEnabled : bool;
  gc_Result_Delisted : bool;
  gc_Result_PayoutFee : string;
  gc_Result_PayoutMinimalAmount : string;
  gc_Result_PrecisionPayout : Z;
  gc_Result_PrecisionTransfer : Z;
  gc_ID : Z;
}.

(** The package-level variables.  A [sync.Mutex] is [true] while held. *)
Record globals := {
  appConf : appConfiguration;
  currencies : list currencyInfo;
  currencyInfoLock : list bool;
  symbolToIndex : gmap string nat;
}.

(** ** Outcomes of running Go code

    [Panic] is a run-time panic (index out of range, unlock of an unlocked
    mutex); [Blocked] is a [Lock] on a mutex that is held, which in
    sequential code never returns. *)
Inductive result (A : Type) : Type :=
  | Ok (a : A)
  | Panic
  | Blocked.
Arguments Ok {A} a.
Arguments Panic {A}.
Arguments Blocked {A}.

Definition rbind {A B : Type} (r : result A) (k : A → result B) : result B :=
  match r with
  | Ok a => k a
  | Panic => Panic
  | Blocked => Blocked
  end.

Notation "x ←r e1 ; e2" := (rbind e1 (λ x, e2))
  (at level 20, e1 at level 100, e2 at level 200, only parsing).
Notation "' x ←r e1 ; e2" := (rbind e1 (λ x, e2))
  (at level 20, x pattern, e1 at level 100, e2 at level 200, only parsing).

(** ** Fields of a record, for the assignments [currencies[i].F = v] *)
Inductive field :=
  | fID | fFullName | fAsk | fBid | fLast | fOpen | fLow | fHigh | fFeeCurrency.

Definition getField (f : field) (c : currencyInfo) : string :=
  match f with
  | fID => ID c
  | fFullName => FullName c
  | fAsk => Ask c
  | fBid => Bid c
  | fLast => Last c
  | fOpen => Open c
  | fLow => Low c
  | fHigh => High c
  | fFeeCurrency => FeeCurrency c
  end.

Definition setField (f : field) (v : string) (c : currencyInfo) : currencyInfo :=
  match f with
  | fID => {| ID := v; FullName := FullName c; Ask := Ask c; Bid := Bid c; Last := Last c; Open := Open c; Low := Low c; High := High c; FeeCurrency := FeeCurrency c |}
  | fFullName => {| ID := ID c; FullName := v; Ask := Ask c; Bid := Bid c; Last := Last c; Open := Open c; Low := Low c; High := High c; FeeCurrency := FeeCurrency c |}
  | fAsk => {| ID := ID c; FullName := FullName c; Ask := v; Bid := Bid c; Last := Last c; Open := Open c; Low := Low c; High := High c; FeeCurrency := FeeCurrency c |}
  | fBid => {| ID := ID c; FullName := FullName c; Ask := Ask c; Bid := v; Last := Last c; Open := Open c; Low := Low c; High := High c; FeeCurrency := FeeCurrency c |}
  | fLast => {| ID := ID c; FullName := FullName c; Ask := Ask c; Bid := Bid c; Last := v; Open := Open c; Low := Low c; High := High c; FeeCurrency := FeeCurrency c |}
  | fOpen => {| ID := ID c; FullName := FullName c; Ask := Ask c; Bid := Bid c; Last := Last c; Open := v; Low := Low c; High := High c; FeeCurrency := FeeCurrency c |}
  | fLow => {| ID := ID c; FullName := FullName c; Ask := Ask c; Bid := Bid c; Last := Last c; Open := Open c; Low := v; High := High c; FeeCurrency := FeeCurrency c |}
  | fHigh => {| ID := ID c; FullName := FullName c; Ask := Ask c; Bid := Bid c; Last := Last c; Open := Open c; Low := Low c; High := v; FeeCurrency := FeeCurrency c |}
  | fFeeCurrency => {| ID := ID c; FullName := FullName c; Ask := Ask c; Bid := Bid c; Last := Last c; Open := Open c; Low := Low c; High := High c; FeeCurrency := v |}
  end.

#[global] Instance field_eq_dec : EqDecision field.
Proof. solve_decision. Defined.

#[global] Instance currencyInfo_eq_dec : EqDecision currencyInfo.
Proof. solve_decision. Defined.

(** The six fields a ticker update overwrites, in the order of the
    assignments in [setCurrencyInfo], and the three set at start-up. *)
Definition quoteFields : list field := [fAsk; fBid; fLast; fOpen; fLow; fHigh].
Definition staticFields : list field := [fID; fFullName; fFeeCurrency].

(** [currencies[i].f = v]: panics when [i] is out of range. *)
Definition assign (i : nat) (f : field) (v : string)
    (cs : list currencyInfo) : result (list currencyInfo) :=
  match cs !! i with
  | Some c => Ok (<[i := setField f v c]> cs)
  | None => Panic
  end.

(** [currencyInfoLock[i].Lock()] *)
Definition lockAt (i : nat) (ls : list bool) : result (list bool) :=
  match ls !! i with
  | None => Panic
  | Some true => Blocked
  | Some false => Ok (<[i := true]> ls)
  end.

(** [currencyInfoLock[i].Unlock()]; unlocking a free mutex is a fatal error. *)
Definition unlockAt (i : nat) (ls : list bool) : result (list bool) :=
  match ls !! i with
  | None => Panic
  | Some false => Panic
  | Some true => Ok (<[i := false]> ls)
  end.

(** ** doConfig *)

Definition defaultConf : appConfiguration :=
  {| Hostname := "localhost"; Port := "8080"; Symbols := ["BTCUSD"; "ETHBTC"] |}.

(** The loop [for i := range appConf.Symbols { symbolToIndex[Symbols[i]] = i }],
    entered at index [i] with the map built so far. *)
Fixpoint registerFrom (i : nat) (syms : list string)
    (m : gmap string nat) : gmap string nat :=
  match syms with
  | [] => m
  | s :: rest => registerFrom (S i) rest (<[s := i]> m)
  end.

(** [doConfig].  [env] is what [envconfig.Process] made of the environment:
    [None] when it returned an error, in which case the three fields are
    overwritten with the defaults. *)
Definition doConfig (env : option appConfiguration) : globals :=
  let conf := match env with
              | Some c => c
              | None => defaultConf
              end in
  {| appConf := conf;
     currencies := replicate (length (Symbols conf)) zeroCurrencyInfo;
     currencyInfoLock := replicate (length (Symbols conf)) false;
     symbolToIndex := registerFrom 0 (Symbols conf) ∅ |}.

Definition with_currencies (cs : list currencyInfo) (g : globals) : globals :=
  {| appConf := appConf g; currencies := cs;
     currencyInfoLock := currencyInfoLock g; symbolToIndex := symbolToIndex g |}.

Definition with_locks (ls : list bool) (g : globals) : globals :=
  {| appConf := appConf g; currencies := currencies g;
     currencyInfoLock := ls; symbolToIndex := symbolToIndex g |}.

(** ** Snapshot store: the ingestion-side write *)

(** Lines 278-285 of [setCurrencyInfo]: the guarded overwrite of the six
    quote fields of slot [currencyIndex]. *)
Definition writeQuote (currencyIndex : nat) (tu : tickerUpdate)
    (g : globals) : result globals :=
  ls ←r lockAt currencyIndex (currencyInfoLock g);
  cs ←r assign currencyIndex fAsk (Params_Ask tu) (currencies g);
  cs ←r assign currencyIndex fBid (Params_Bid tu) cs;
  cs ←r assign currencyIndex fLast (Params_Last tu) cs;
  cs ←r assign currencyIndex fOpen (Params_Open tu) cs;
  cs ←r assign currencyIndex fLow (Params_Low tu) cs;
  cs ←r assign currencyIndex fHigh (Params_High tu) cs;
  ls ←r unlockAt currencyIndex ls;
  Ok (with_locks ls (with_currencies cs g)).

(** [setCurrencyInfo]: [symbolToIndex[tu.Params.Symbol]] is the one-result
    map read, which yields the zero value [0] for an absent key. *)
Definition setCurrencyInfo (tu : tickerUpdate) (g : globals) : result globals :=
  let currencyIndex := default 0 (symbolToIndex g !! Params_Symbol tu) in
  writeQuote currencyIndex tu g.

(** ** Snapshot store: the HTTP-side reads *)

Inductive body :=
  | Text (s : string)
  | JSONRecord (c : currencyInfo)
  | JSONAll (cs : list currencyInfo).

(** What a handler wrote to its [http.ResponseWriter]. *)
Record httpResponse := {
  ContentType : option string;
  Body : body;
}.

Definition newline : string := String (Ascii.ascii_of_nat 10) "".

(** Lines 301-304 of [getSingleCurrency]: lock the slot, hand the record
    [currencies[currencyIndex]] (a value copy) to the encoder, unlock. *)
Definition readOne (currencyIndex : nat) (g : globals)
    : result (currencyInfo * globals) :=
  ls ←r lockAt currencyIndex (currencyInfoLock g);
  match currencies g !! currencyIndex with
  | None => Panic
  | Some c =>
      ls ←r unlockAt currencyIndex ls;
      Ok (c, with_locks ls g)
  end.

(** The lines [fmt.Fprintf(w, "%v\n", appConf.Symbols[i])]. *)
Definition supportedLines (syms : list string) : string :=
  foldr (λ s acc, s +:+ newline +:+ acc) "" syms.

(** [getSingleCurrency], with the [{symbol}] route variable as argument. *)
Definition getSingleCurrency (symbol : string) (g : globals)
    : result (httpResponse * globals) :=
  match symbolToIndex g !! symbol with
  | None =>
      Ok ({| ContentType := None;
             Body := Text ("Unsupported symbol " +:+ symbol +:+ "!  Use one of:"
                           +:+ newline +:+ supportedLines (Symbols (appConf g))) |},
          g)
  | Some currencyIndex =>
      '(c, g') ←r readOne currencyIndex g;
      Ok ({| ContentType := Some "application/json"; Body := JSONRecord c |}, g')
  end.

(** A [for i := range] loop over the indices [idxs], threading a state. *)
Fixpoint forEach {S : Type} (idxs : list nat) (step : nat → S → result S)
    (s : S) : result S :=
  match idxs with
  | [] => Ok s
  | i :: rest => s' ←r step i s; forEach rest step s'
  end.

(** One iteration of the loop of [getAllCurrencies]:
    lock slot [i], [result[i] = currencies[i]], unlock. *)
Definition copySlot (i : nat) (st : list currencyInfo * globals)
    : result (list currencyInfo * globals) :=
  let '(res, g) := st in
  ls ←r lockAt i (currencyInfoLock g);
  match currencies g !! i, res !! i with
  | Some c, Some _ =>
      ls ←r unlockAt i ls;
      Ok (<[i := c]> res, with_locks ls g)
  | _, _ => Panic
  end.

(** [getAllCurrencies] *)
Definition getAllCurrencies (g : globals) : result (httpResponse * globals) :=
  let numCurrencies := length (currencies g) in
  '(res, g') ←r forEach (seq 0 numCurrencies) copySlot
                  (replicate numCurrencies zeroCurrencyInfo, g);
  Ok ({| ContentType := Some "application/json"; Body := JSONAll res |}, g').

(** The sequence of records a [/currency/all] response carries. *)
Definition readAll (g : globals) : result (list currencyInfo) :=
  '(resp, _) ←r getAllCurrencies g;
  match Body resp with
  | JSONAll cs => Ok cs
  | _ => Panic
  end.

(** [lookup] of the registry: the two-result map read of [getSingleCurrency]. *)
Definition lookup_symbol (symbol : string) (g : globals) : option nat :=
  symbolToIndex g !! symbol.

(** ** The websocket connection

    The upstream feed is outside the program, so a connection is the
    script of what the peer and the transport will do: the results of the
    successive [ReadMessage] calls and whether each successive
    [WriteMessage] fails.  Commands that were written are logged. *)

Inductive params :=
  | symbolParam (Symbol : string)
  | getCurrencyParam (Currency : string).

(** [getSymbolCommand], [subscribeTickerCommand], [getCurrencyCommand]:
    the three have the same shape. *)
Record command := {
  cmd_Method : string;
  cmd_Params : params;
  cmd_ID : Z;
}.

(** A received text message, kept as what [json.Unmarshal] makes of it at
    each of the three target types the program decodes into; [None] is an
    [Unmarshal] error.  (One message may well decode at several types:
    [Unmarshal] ignores unknown keys and leaves absent ones zero.) *)
Record message := {
  asGetSymbolResponse : option getSymbolResponse;
  asGetCurrencyResponse : option getCurrencyResponse;
  asTickerUpdate : option tickerUpdate;
}.

(** [inbound]: [Some m] delivers [m], [None] is a transport error; when
    the script is exhausted the peer has closed and reads fail.  A peer
    that stays connected and silent, on which the blocking read of the
    source does not return, is not among these scripts.
    [writeErrors]: [true] makes the next write fail; exhausted, writes
    succeed. *)
Record conn := {
  inbound : list (option message);
  writeErrors : list bool;
  sent : list command;
}.

Inductive error := errWrite | errRead | errUnmarshal.

Definition WriteMessage (cmd : command) (c : conn) : option error * conn :=
  match writeErrors c with
  | true :: rest =>
      (Some errWrite, {| inbound := inbound c; writeErrors := rest; sent := sent c |})
  | false :: rest =>
      (None, {| inbound := inbound c; writeErrors := rest; sent := sent c ++ [cmd] |})
  | [] =>
      (None, {| inbound := inbound c; writeErrors := []; sent := sent c ++ [cmd] |})
  end.

Definition ReadMessage (c : conn) : (message + error) * conn :=
  match inbound c with
  | Some m :: rest =>
      (inl m, {| inbound := rest; writeErrors := writeErrors c; sent := sent c |})
  | None :: rest =>
      (inr errRead, {| inbound := rest; writeErrors := writeErrors c; sent := sent c |})
  | [] => (inr errRead, c)
  end.

(** [getSymbol] *)
Definition getSymbol (symbol : string) (c : conn)
    : (getSymbolResponse + error) * conn :=
  let commandStruct :=
    {| cmd_Method := "getSymbol"; cmd_Params := symbolParam symbol; cmd_ID := 123 |} in
  match WriteMessage commandStruct c with
  | (Some errW, c) => (inr errW, c)
  | (None, c) =>
      match ReadMessage c with
      | (inr errR, c) => (inr errR, c)
      | (inl msg, c) =>
          match asGetSymbolResponse msg with
          | None => (inr errUnmarshal, c)
          | Some gs => (inl gs, c)
          end
      end
  end.

(** [getCurrency] *)
Definition getCurrency (currency : string) (c : conn)
    : (getCurrencyResponse + error) * conn :=
  let commandStruct :=
    {| cmd_Method := "getCurrency"; cmd_Params := getCurrencyParam currency;
       cmd_ID := 123 |} in
  match WriteMessage commandStruct c with
  | (Some errW, c) => (inr errW, c)
  | (None, c) =>
      match ReadMessage c with
      | (inr errR, c) => (inr errR, c)
      | (inl msg, c) =>
          match asGetCurrencyResponse msg with
          | None => (inr errUnmarshal, c)
          | Some gcs => (inl gcs, c)
          end
      end
  end.

(** [subscribeToTicker] *)
Definition subscribeToTicker (symbol : string) (c : conn) : option error * conn :=
  let commandStruct :=
    {| cmd_Method := "subscribeTicker"; cmd_Params := symbolParam symbol;
       cmd_ID := 123 |} in
  WriteMessage commandStruct c.

(** [connectToAPI]: [dial] is what [Dial] returned, [None] for an error, on
    which [log.Fatal] ends the process. *)
Definition connectToAPI (dial : option conn) : option conn := dial.

(** ** initializeCurrencyInfo *)

(** The loop of [initializeCurrencyInfo], entered at index [i] with the
    symbols [syms] still to resolve.  The first component of the result is
    the returned [error] ([None] for [nil]). *)
Fixpoint initializeFrom (i : nat) (syms : list string) (c : conn) (g : globals)
    : result (option error * globals * conn) :=
  match syms with
  | [] => Ok (None, g, c)
  | symbol :: rest =>
      match getSymbol symbol c with
      | (inr gsErr, c) => Ok (Some gsErr, g, c)
      | (inl gsResponse, c) =>
          cs ←r assign i fFeeCurrency (gs_Result_FeeCurrency gsResponse) (currencies g);
          cs ←r assign i fID (gs_Result_BaseCurrency gsResponse) cs;
          id ←r match cs !! i with
                | Some r => Ok (ID r)
                | None => Panic
                end;
          match getCurrency id c with
          | (inr gcsErr, c) => Ok (Some gcsErr, with_currencies cs g, c)
          | (inl gcs, c) =>
              cs ←r assign i fFullName (gc_Result_FullName gcs) cs;
              initializeFrom (S i) rest c (with_currencies cs g)
          end
      end
  end.

Definition initializeCurrencyInfo (c : conn) (g : globals)
    : result (option error * globals * conn) :=
  initializeFrom 0 (Symbols (appConf g)) c g.

(** ** main *)

(** The subscription loop of [main]: stops at the first write error. *)
Fixpoint subscribeAll (syms : list string) (c : conn) : option error * conn :=
  match syms with
  | [] => (None, c)
  | symbol :: rest =>
      match subscribeToTicker symbol c with
      | (Some err, c) => (Some err, c)
      | (None, c) => subscribeAll rest c
      end
  end.

(** How the ingestion goroutine of [main] ends. *)
Inductive loopExit :=
  | readFailed      (* [log.Println("read:", err); return] *)
  | decodePanic     (* [panic(err)] after a failed [json.Unmarshal] *)
  | storePanic      (* [setCurrencyInfo] panicked *)
  | storeBlocked.   (* [setCurrencyInfo] waits for a mutex *)

(** The ingestion goroutine run over the messages the peer still
    delivers: the exit and the globals at that moment.  The loop of the
    source has no exit of its own; the script being finite, it ends with
    the read error of a closed connection at the latest. *)
Fixpoint ingest (inb : list (option message)) (g : globals) : loopExit * globals :=
  match inb with
  | [] => (readFailed, g)
  | None :: _ => (readFailed, g)
  | Some msg :: rest =>
      match asTickerUpdate msg with
      | None => (decodePanic, g)
      | Some tu =>
          match setCurrencyInfo tu g with
          | Ok g' => ingest rest g'
          | Panic => (storePanic, g)
          | Blocked => (storeBlocked, g)
          end
      end
  end.

(** Where the main goroutine of [main] gets to. *)
Inductive mainOutcome :=
  | dialFatal                                (* [log.Fatal("dial:", err)] *)
  | initPanic                                (* run-time panic while initializing *)
  | subscribeFailed (g : globals) (c : conn) (* [log.Println("write:", err); return] *)
  | serving (g : globals) (c : conn).        (* [server.ListenAndServe()] is reached *)

(** The statements of [main] that its own goroutine runs, from [doConfig]
    to the call of [server.ListenAndServe()], for a command line that
    [flag.Parse] accepts.  The value returned by
    [initializeCurrencyInfo(c)] is dropped, as in the source.  The
    ingestion goroutine is not part of this function: it is started after
    [initializeCurrencyInfo], before the subscriptions are sent, and reads
    [inbound c] of the outcome while the statements below run; [startup]
    puts the two together. *)
Definition main (env : option appConfiguration) (dial : option conn) : mainOutcome :=
  let g := doConfig env in
  match connectToAPI dial with
  | None => dialFatal
  | Some c =>
      match initializeCurrencyInfo c g with
      | Ok (_, g, c) =>
          match subscribeAll (Symbols (appConf g)) c with
          | (Some _, c) => subscribeFailed g c
          | (None, c) => serving g c
          end
      | _ => initPanic
      end
  end.

(** The ingestion goroutine of [main] (lines 349-364) after at most [k]
    turns of its loop over the messages [inb]: how it has ended, [None]
    while it is still in the loop; the globals; the messages not yet
    read. *)
Fixpoint ingestFor (k : nat) (inb : list (option message)) (g : globals)
    : option loopExit * globals * list (option message) :=
  match k with
  | 0 => (None, g, inb)
  | S k' =>
      match inb with
      | [] => (Some readFailed, g, [])
      | None :: rest => (Some readFailed, g, rest)
      | Some msg :: rest =>
          match asTickerUpdate msg with
          | None => (Some decodePanic, g, rest)
          | Some tu =>
              match setCurrencyInfo tu g with
              | Ok g' => ingestFor k' rest g'
              | Panic => (Some storePanic, g, rest)
              | Blocked => (Some storeBlocked, g, rest)
              end
          end
      end
  end.

(** The process when start-up is over. *)
Inductive processState :=
  | flagExit                               (* [flag.Parse] ended the process *)
  | dialExit                               (* [log.Fatal("dial:", err)] *)
  | panicked                               (* a panic ended the process *)
  | returned (g : globals) (c : conn)      (* [main] returned: a subscription failed *)
  | listening (g : globals) (c : conn).    (* [server.ListenAndServe()] is called *)

(** The main goroutine has come to the end of its start-up statements
    with the globals [g] and the connection [c] as it left them, while the
    ingestion goroutine has made [k] turns of its loop.  A panic in the
    goroutine ends the process; its [return] after a read error does
    not. *)
Definition besideIngestion (k : nat) (g : globals) (c : conn)
    (alive : globals → conn → processState) : processState :=
  match ingestFor k (inbound c) g with
  | (Some decodePanic, _, _) => panicked
  | (Some storePanic, _, _) => panicked
  | (_, g', rest) =>
      alive g' {| inbound := rest; writeErrors := writeErrors c; sent := sent c |}
  end.

(** [main] with its ingestion goroutine, up to the call of
    [server.ListenAndServe()].  [flagsOk] tells whether [flag.Parse]
    accepts the command line; it ends the process otherwise, after
    [doConfig] and before the dial.  The goroutine runs beside the
    subscription loop, so the number [k] of turns it has made when the main
    goroutine is through is not fixed by the program: it is a parameter,
    and a property of start-up is one that holds for the [k] it names. *)
Definition startup (flagsOk : bool) (env : option appConfiguration)
    (dial : option conn) (k : nat) : processState :=
  if flagsOk then
    match main env dial with
    | dialFatal => dialExit
    | initPanic => panicked
    | subscribeFailed g c => besideIngestion k g c returned
    | serving g c => besideIngestion k g c listening
    end
  else flagExit.

(** The symbol list start-up works with (lines 58-65 of [doConfig]): the
    one [envconfig.Process] delivered, or the two default symbols when it
    returned an error. *)
Definition configuredSymbols (env : option appConfiguration) : list string :=
  match env with
  | Some conf => Symbols conf
  | None => ["BTCUSD"; "ETHBTC"]
  end.

(** ** Goroutines: the store under interleaving

    The ingestion goroutine and the HTTP handlers share [currencies] and
    [currencyInfoLock].  Each goroutine is the list of shared-memory
    accesses it still has to make, one instruction per access of the
    source: a mutex operation, one field assignment, or the copy of one
    field of the record handed to the encoder (a struct copy is not one
    atomic access).  A machine step runs the next instruction of any one
    goroutine that is not waiting for a mutex. *)

Inductive instr :=
  | ILock (i : nat)                            (* [currencyInfoLock[i].Lock()] *)
  | IUnlock (i : nat)                          (* [currencyInfoLock[i].Unlock()] *)
  | IStore (i : nat) (f : field) (v : string)  (* [currencies[i].f = v] *)
  | ILoad (i : nat) (f : field).               (* copy of field [f] of [currencies[i]] *)

(** A goroutine: the accesses left and the record copy it is assembling. *)
Record thread := {
  code : list instr;
  local : currencyInfo;
}.

Record machine := {
  threads : list thread;
  shared : globals;
}.

Definition stepInstr (ins : instr) (loc : currencyInfo) (g : globals)
    : result (currencyInfo * globals) :=
  match ins with
  | ILock i =>
      ls ←r lockAt i (currencyInfoLock g); Ok (loc, with_locks ls g)
  | IUnlock i =>
      ls ←r unlockAt i (currencyInfoLock g); Ok (loc, with_locks ls g)
  | IStore i f v =>
      cs ←r assign i f v (currencies g); Ok (loc, with_currencies cs g)
  | ILoad i f =>
      match currencies g !! i with
      | Some c => Ok (setField f (getField f c) loc, g)
      | None => Panic
      end
  end.

(** The assignments of [setCurrencyInfo], in source order. *)
Definition quoteStores (tu : tickerUpdate) : list (field * string) :=
  [(fAsk, Params_Ask tu); (fBid, Params_Bid tu); (fLast, Params_Last tu);
   (fOpen, Params_Open tu); (fLow, Params_Low tu); (fHigh, Params_High tu)].

(** The fields of [currencyInfo], in declaration order. *)
Definition allFields : list field :=
  [fID; fFullName; fAsk; fBid; fLast; fOpen; fLow; fHigh; fFeeCurrency].

(** The accesses of lines 278-285 of [setCurrencyInfo]. *)
Definition writeQuoteCode (currencyIndex : nat) (tu : tickerUpdate) : list instr :=
  ILock currencyIndex
  :: map (λ fv, IStore currencyIndex (fst fv) (snd fv)) (quoteStores tu)
  ++ [IUnlock currencyIndex].

(** The accesses of lines 301-304 of [getSingleCurrency]. *)
Definition readOneCode (currencyIndex : nat) : list instr :=
  ILock currencyIndex
  :: map (ILoad currencyIndex) allFields
  ++ [IUnlock currencyIndex].

(** A goroutine run alone, to the end of its code. *)
Fixpoint runCode (c : list instr) (loc : currencyInfo) (g : globals)
    : result (currencyInfo * globals) :=
  match c with
  | [] => Ok (loc, g)
  | ins :: rest => '(loc', g') ←r stepInstr ins loc g; runCode rest loc' g'
  end.

(** Goroutine [t] makes its next access; [None] when it has finished, is
    waiting for a mutex, or would panic. *)
Definition stepThread (t : nat) (m : machine) : option machine :=
  match threads m !! t with
  | Some {| code := ins :: rest; local := loc |} =>
      match stepInstr ins loc (shared m) with
      | Ok (loc', g') =>
          Some {| threads := <[t := {| code := rest; local := loc' |}]> (threads m);
                  shared := g' |}
      | _ => None
      end
  | _ => None
  end.

Definition mstep (m m' : machine) : Prop := ∃ t, stepThread t m = Some m'.

(** All goroutines have run to completion. *)
Definition finished (m : machine) : Prop :=
  Forall (λ th, code th = []) (threads m).

(** The machine driven by a schedule: the goroutine named next runs one
    access if it can, otherwise the turn passes. *)
Fixpoint runSchedule (sched : list nat) (m : machine) : machine :=
  match sched with
  | [] => m
  | t :: rest =>
      match stepThread t m with
      | Some m' => runSchedule rest m'
      | None => runSchedule rest m
      end
  end.

(** The ingestion goroutine writing the update [tu] to slot [i] beside one
    handler reading slot [i]. *)
Definition writerAndReader (i : nat) (tu : tickerUpdate) (g : globals) : machine :=
  {| threads := [ {| code := writeQuoteCode i tu; local := zeroCurrencyInfo |};
                  {| code := readOneCode i; local := zeroCurrencyInfo |} ];
     shared := g |}.

(** The six quote fields of a record, and those an update carries. *)
Definition quoteOf (c : currencyInfo) : list string :=
  map (λ f, getField f c) quoteFields.

Definition quoteOfUpdate (tu : tickerUpdate) : list string :=
  map snd (quoteStores tu).

Definition staticOf (c : currencyInfo) : list string :=
  map (λ f, getField f c) staticFields.

(** The record left by the six assignments of [setCurrencyInfo]. *)
Definition setQuote (tu : tickerUpdate) (c : currencyInfo) : currencyInfo :=
  {| ID := ID c; FullName := FullName c;
     Ask := Params_Ask tu; Bid := Params_Bid tu; Last := Params_Last tu;
     Open := Params_Open tu; Low := Params_Low tu; High := Params_High tu;
     FeeCurrency := FeeCurrency c |}.

(** State between two operations: the store and the mutex array are as
    long as the symbol list, every mutex is free, and the registry is the
    one [doConfig] built. *)
Record wf (g : globals) : Prop := {
  wf_currencies : length (currencies g) = length (Symbols (appConf g));
  wf_locks : currencyInfoLock g = replicate (length (Symbols (appConf g))) false;
  wf_registry : symbolToIndex g = registerFrom 0 (Symbols (appConf g)) ∅;
}.

(** The ingestion loop applying a run of decoded updates. *)
Fixpoint applyUpdates (tus : list tickerUpdate) (g : globals) : result globals :=
  match tus with
  | [] => Ok g
  | tu :: rest => g' ←r setCurrencyInfo tu g; applyUpdates rest g'
  end.

(** [g0] is a state in which [initializeCurrencyInfo] has returned (with
    or without an error) on the globals [doConfig] built. *)
Definition initialized (g0 : globals) : Prop :=
  ∃ env c err c', initializeCurrencyInfo c (doConfig env) = Ok (err, g0, c').

(** The states an HTTP handler can find: initialization has returned and
    the ingestion loop has applied some updates since. *)
Definition reachable (g : globals) : Prop :=
  ∃ g0 tus, initialized g0 ∧ applyUpdates tus g0 = Ok g.

(** The store [cs'] has the slots of [cs], each with the fields [fs]
    unchanged. *)
Definition keeps (fs : list field) (cs cs' : list currencyInfo) : Prop :=
  length cs' = length cs ∧
  ∀ j r r', cs !! j = Some r → cs' !! j = Some r' →
            ∀ f, f ∈ fs → getField f r' = getField f r.

(** ** A sample run

    The configuration of the README, [DCHOWELLER_CRYPTO_SYMBOLS=ETHBTC,BTCUSD],
    and a feed that answers as the exchange does. *)

Definition sampleConf : appConfiguration :=
  {| Hostname := "localhost"; Port := "8080"; Symbols := ["ETHBTC"; "BTCUSD"] |}.

(** A [getSymbol] reply.  [json.Unmarshal] accepts its text at the other
    two types as well: the keys a struct does not know are skipped and the
    fields the text does not give stay zero, so that as a ticker update it
    is the zero update and as a [getCurrency] response only the two [id]s
    are filled. *)
Definition symbolReply (id base quote fee : string) : message :=
  {| asGetSymbolResponse :=
       Some {| gs_Jsonrpc := "2.0"; gs_Result_ID := id;
               gs_Result_BaseCurrency := base; gs_Result_QuoteCurrency := quote;
               gs_Result_QuantityIncrement := "0.001"; gs_Result_TickSize := "0.000001";
               gs_Result_TakeLiquidityRate := "0.001";
               gs_Result_ProvideLiquidityRate := "-0.0001";
               gs_Result_FeeCurrency := fee; gs_ID := 123 |};
     asGetCurrencyResponse :=
       Some {| gc_Jsonrpc := "2.0"; gc_Result_ID := id; gc_Result_FullName := "";
               gc_Result_Crypto := false; gc_Result_PayinEnabled := false;
               gc_Result_PayinPaymentID := false; gc_Result_PayinConfirmations := 0;
               gc_Result_PayoutEnabled := false; gc_Result_PayoutIsPaymentID := false;
               gc_Result_TransferEnabled := false; gc_Result_Delisted := false;
               gc_Result_PayoutFee := ""; gc_Result_PayoutMinimalAmount := "";
               gc_Result_PrecisionPayout := 0; gc_Result_PrecisionTransfer := 0;
               gc_ID := 123 |};
     asTickerUpdate :=
       Some {| tu_Jsonrpc := "2.0"; tu_Method := ""; Params_Ask := ""; Params_Bid := "";
               Params_Last := ""; Params_Open := ""; Params_Low := "";
               Params_High := ""; Params_Volume := ""; Params_VolumeQuote := "";
               Params_Timestamp := 0; Params_Symbol := "" |} |}.

(** A [getCurrency] reply; at the other two types, as above. *)
Definition currencyReply (id fullName : string) : message :=
  {| asGetSymbolResponse :=
       Some {| gs_Jsonrpc := "2.0"; gs_Result_ID := id;
               gs_Result_BaseCurrency := ""; gs_Result_QuoteCurrency := "";
               gs_Result_QuantityIncrement := ""; gs_Result_TickSize := "";
               gs_Result_TakeLiquidityRate := "";
               gs_Result_ProvideLiquidityRate := "";
               gs_Result_FeeCurrency := ""; gs_ID := 123 |};
     asGetCurrencyResponse :=
       Some {| gc_Jsonrpc := "2.0"; gc_Result_ID := id; gc_Result_FullName := fullName;
               gc_Result_Crypto := true; gc_Result_PayinEnabled := true;
               gc_Result_PayinPaymentID := false; gc_Result_PayinConfirmations := 2;
               gc_Result_PayoutEnabled := true; gc_Result_PayoutIsPaymentID := false;
               gc_Result_TransferEnabled := true; gc_Result_Delisted := false;
               gc_Result_PayoutFee := "0.001"; gc_Result_PayoutMinimalAmount := "0.001";
               gc_Result_PrecisionPayout := 8; gc_Result_PrecisionTransfer := 8;
               gc_ID := 123 |};
     asTickerUpdate :=
       Some {| tu_Jsonrpc := "2.0"; tu_Method := ""; Params_Ask := ""; Params_Bid := "";
               Params_Last := ""; Params_Open := ""; Params_Low := "";
               Params_High := ""; Params_Volume := ""; Params_VolumeQuote := "";
               Params_Timestamp := 0; Params_Symbol := "" |} |}.

(** A ticker notification for [symbol]. *)
Definition ticker (symbol ask bid last open low high : string) : tickerUpdate :=
  {| tu_Jsonrpc := "2.0"; tu_Method := "ticker"; Params_Ask := ask;
     Params_Bid := bid; Params_Last := last; Params_Open := open;
     Params_Low := low; Params_High := high; Params_Volume := "10";
     Params_VolumeQuote := "1"; Params_Timestamp := 1700000000;
     Params_Symbol := symbol |}.

(** The message of a ticker notification.  It has no [result] and no
    [id], so the two response types get its [jsonrpc] only. *)
Definition tickerMessage (tu : tickerUpdate) : message :=
  {| asGetSymbolResponse :=
       Some {| gs_Jsonrpc := tu_Jsonrpc tu; gs_Result_ID := "";
               gs_Result_BaseCurrency := ""; gs_Result_QuoteCurrency := "";
               gs_Result_QuantityIncrement := ""; gs_Result_TickSize := "";
               gs_Result_TakeLiquidityRate := "";
               gs_Result_ProvideLiquidityRate := "";
               gs_Result_FeeCurrency := ""; gs_ID := 0 |};
     asGetCurrencyResponse :=
       Some {| gc_Jsonrpc := tu_Jsonrpc tu; gc_Result_ID := ""; gc_Result_FullName := "";
               gc_Result_Crypto := false; gc_Result_PayinEnabled := false;
               gc_Result_PayinPaymentID := false; gc_Result_PayinConfirmations := 0;
               gc_Result_PayoutEnabled := false; gc_Result_PayoutIsPaymentID := false;
               gc_Result_TransferEnabled := false; gc_Result_Delisted := false;
               gc_Result_PayoutFee := ""; gc_Result_PayoutMinimalAmount := "";
               gc_Result_PrecisionPayout := 0; gc_Result_PrecisionTransfer := 0;
               gc_ID := 0 |};
     asTickerUpdate := Some tu |}.

(** A text message that is not JSON: nothing decodes it. *)
Definition garbage : message :=
  {| asGetSymbolResponse := None; asGetCurrencyResponse := None;
     asTickerUpdate := None |}.

Definition ethbtcTicker : tickerUpdate :=
  ticker "ETHBTC" "0.054464" "0.054463" "0.054463" "0.057133" "0.053615" "0.057559".

Definition btcusdTicker : tickerUpdate :=
  ticker "BTCUSD" "7906.72" "7906.28" "7906.48" "7952.3" "7561.51" "8107.96".

Definition unknownTicker : tickerUpdate :=
  ticker "XXXYYY" "1" "2" "3" "4" "5" "6".

(** The four replies of a clean start-up for [sampleConf]. *)
Definition sampleReplies : list (option message) :=
  [Some (symbolReply "ETHBTC" "ETH" "BTC" "BTC"); Some (currencyReply "ETH" "Ethereum");
   Some (symbolReply "BTCUSD" "BTC" "USD" "USD"); Some (currencyReply "BTC" "Bitcoin")].

Definition sampleConn : conn :=
  {| inbound := sampleReplies; writeErrors := []; sent := [] |}.

(** The globals once start-up has resolved both symbols. *)
Definition sampleStore : list currencyInfo :=
  [ {| ID := "ETH"; FullName := "Ethereum"; Ask := ""; Bid := ""; Last := "";
       Open := ""; Low := ""; High := ""; FeeCurrency := "BTC" |};
    {| ID := "BTC"; FullName := "Bitcoin"; Ask := ""; Bid := ""; Last := "";
       Open := ""; Low := ""; High := ""; FeeCurrency := "USD" |} ].

Definition sampleGlobals : globals :=
  with_currencies sampleStore (doConfig (Some sampleConf)).

(** A start-up in which the reply to the second [getSymbol] is not JSON. *)
Definition brokenConn : conn :=
  {| inbound := [Some (symbolReply "ETHBTC" "ETH" "BTC" "BTC");
                 Some (currencyReply "ETH" "Ethereum");
                 Some garbage];
     writeErrors := []; sent := [] |}.

(** A configuration whose symbol list is empty, as [envconfig] yields for
    [DCHOWELLER_CRYPTO_SYMBOLS=] (set, but blank), and a feed that delivers
    nothing. *)
Definition emptyConf : appConfiguration :=
  {| Hostname := "localhost"; Port := "8080"; Symbols := [] |}.

Definition quietConn : conn :=
  {| inbound := []; writeErrors := []; sent := [] |}.

(** A feed that answers the start-up requests for the two default
    symbols, in their order. *)
Definition defaultFeed : conn :=
  {| inbound := [Some (symbolReply "BTCUSD" "BTC" "USD" "USD");
                 Some (currencyReply "BTC" "Bitcoin");
                 Some (symbolReply "ETHBTC" "ETH" "BTC" "BTC");
                 Some (currencyReply "ETH" "Ethereum")];
     writeErrors := []; sent := [] |}.



(** The sample feed going on with one ETHBTC ticker and then a text that
    is not JSON. *)
Definition tickingFeed : conn :=
  {| inbound := sampleReplies
                ++ [Some (tickerMessage ethbtcTicker); Some garbage];
     writeErrors := []; sent := [] |}.

(** The sample store once the ETHBTC ticker has been ingested. *)
Definition sampleQuoted : globals :=
  with_currencies
    [ {| ID := "ETH"; FullName := "Ethereum"; Ask := "0.054464"; Bid := "0.054463";
         Last := "0.054463"; Open := "0.057133"; Low := "0.053615";
         High := "0.057559"; FeeCurrency := "BTC" |};
      {| ID := "BTC"; FullName := "Bitcoin"; Ask := ""; Bid := ""; Last := "";
         Open := ""; Low := ""; High := ""; FeeCurrency := "USD" |} ]
    (doConfig (Some sampleConf)).

(** ** The invariant of one write racing one read

    [kw] and [kr] count the accesses the writer and the reader have made.
    The writer holds the mutex after its [Lock] (access 1) until its
    [Unlock] (access 8); the reader after its [Lock] until its [Unlock]
    (access 11). *)

Definition applyStores (stores : list (field * string)) (c : currencyInfo)
    : currencyInfo :=
  foldl (λ acc fv, setField (fst fv) (snd fv) acc) c stores.

Definition copyFields (fs : list field) (src loc : currencyInfo) : currencyInfo :=
  foldl (λ acc f, setField f (getField f src) acc) loc fs.

Definition heldW (kw : nat) : bool := (1 <=? kw) && (kw <=? 7).
Definition heldR (kr : nat) : bool := (1 <=? kr) && (kr <=? 10).

(** [r1] is the record of slot [i] before the write of [tu]; [rX] is the
    record the reader found when it took the mutex. *)
Definition raceInv (i : nat) (tu : tickerUpdate) (r1 : currencyInfo)
    (m : machine) : Prop :=
  ∃ kw kr rX,
    threads m =
      [ {| code := drop kw (writeQuoteCode i tu); local := zeroCurrencyInfo |};
        {| code := drop kr (readOneCode i);
           local := copyFields (take (kr - 1) allFields) rX zeroCurrencyInfo |} ]
    ∧ kw ≤ 8 ∧ kr ≤ 11
    ∧ heldW kw && heldR kr = false
    ∧ currencyInfoLock (shared m) !! i = Some (heldW kw || heldR kr)
    ∧ currencies (shared m) !! i
      = Some (applyStores (take (kw - 1) (quoteStores tu)) r1)
    ∧ (rX = r1 ∨ rX = setQuote tu r1)
    ∧ (heldR kr = true → currencies (shared m) !! i = Some rX).

(** Accesses still to be made by all goroutines. *)
Definition remaining (m : machine) : nat :=
  sum_list_with (λ th, length (code th)) (threads m).

(** A later ETHBTC ticker, and two schedules: in the first the handler
    takes the mutex first and the writer's turn in between passes; in the
    second the writer runs first. *)
Definition ethbtcTicker2 : tickerUpdate :=
  ticker "ETHBTC" "0.054470" "0.054469" "0.054470" "0.057133" "0.053615" "0.057559".

Definition readerFirst : list nat := [1; 0] ++ replicate 10 1 ++ replicate 8 0.
Definition writerFirst : list nat := [0; 1] ++ replicate 7 0 ++ replicate 11 1.

(** ** Start-up on a feed that answers

    The commands of the three request kinds, as the source builds them. *)

Definition getSymbolCommand (symbol : string) : command :=
  {| cmd_Method := "getSymbol"; cmd_Params := symbolParam symbol; cmd_ID := 123 |}.

Definition getCurrencyCommand (currency : string) : command :=
  {| cmd_Method := "getCurrency"; cmd_Params := getCurrencyParam currency;
     cmd_ID := 123 |}.

Definition subscribeTickerCommand (symbol : string) : command :=
  {| cmd_Method := "subscribeTicker"; cmd_Params := symbolParam symbol;
     cmd_ID := 123 |}.

(** No write on the connection is scripted to fail. *)
Definition noWriteError (c : conn) : Prop :=
  Forall (λ b, b = false) (writeErrors c).

(** The three assignments of one round of [initializeCurrencyInfo]. *)
Definition resolved (gs : getSymbolResponse) (gcs : getCurrencyResponse)
    (r : currencyInfo) : currencyInfo :=
  setField fFullName (gc_Result_FullName gcs)
    (setField fID (gs_Result_BaseCurrency gs)
       (setField fFeeCurrency (gs_Result_FeeCurrency gs) r)).

(** The two messages that answer one round, and the two commands the
    round sends for [symbol]. *)
Definition roundReplies (ms : message * message) : list (option message) :=
  [Some (fst ms); Some (snd ms)].

Definition roundCommands (symbol : string) (gs : getSymbolResponse) : list command :=
  [getSymbolCommand symbol; getCurrencyCommand (gs_Result_BaseCurrency gs)].

(** [ms] decode as the replies [rep], pair by pair. *)
Definition decodeAs (ms : list (message * message))
    (rep : list (getSymbolResponse * getCurrencyResponse)) : Prop :=
  Forall2 (λ m r, asGetSymbolResponse (fst m) = Some (fst r)
                  ∧ asGetCurrencyResponse (snd m) = Some (snd r)) ms rep.

(** What one round of replies decodes to, when both messages decode. *)
Definition decodePair (ms : message * message)
    : option (getSymbolResponse * getCurrencyResponse) :=
  gs ← asGetSymbolResponse (fst ms);
  gcs ← asGetCurrencyResponse (snd ms);
  Some (gs, gcs).

(** The replies of [sampleConn], round by round. *)
Definition sampleRounds : list (message * message) :=
  [(symbolReply "ETHBTC" "ETH" "BTC" "BTC", currencyReply "ETH" "Ethereum");
   (symbolReply "BTCUSD" "BTC" "USD" "USD", currencyReply "BTC" "Bitcoin")].

(** ** The invariant of a write and a read of different slots

    The writer works on slot [i], the reader on slot [j]; [r1] and [rj] are
    the records of the two slots at the start. *)

Definition writerAndReaderOf (i j : nat) (tu : tickerUpdate) (g : globals) : machine :=
  {| threads := [ {| code := writeQuoteCode i tu; local := zeroCurrencyInfo |};
                  {| code := readOneCode j; local := zeroCurrencyInfo |} ];
     shared := g |}.

Definition apartInv (i j : nat) (tu : tickerUpdate) (r1 rj : currencyInfo)
    (m : machine) : Prop :=
  ∃ kw kr,
    threads m =
      [ {| code := drop kw (writeQuoteCode i tu); local := zeroCurrencyInfo |};
        {| code := drop kr (readOneCode j);
           local := copyFields (take (kr - 1) allFields) rj zeroCurrencyInfo |} ]
    ∧ kw ≤ 8 ∧ kr ≤ 11
    ∧ currencyInfoLock (shared m) !! i = Some (heldW kw)
    ∧ currencyInfoLock (shared m) !! j = Some (heldR kr)
    ∧ currencies (shared m) !! i
      = Some (applyStores (take (kw - 1) (quoteStores tu)) r1)
    ∧ currencies (shared m) !! j = Some rj.

(** The slot an access works on. *)
Definition instrSlot (ins : instr) : nat :=
  match ins with
  | ILock i | IUnlock i | IStore i _ _ | ILoad i _ => i
  end.

(** [g'] differs from [g] at most in the record and the mutex of slot [i]. *)
Definition sameElsewhere (i : nat) (g g' : globals) : Prop :=
  appConf g' = appConf g
  ∧ symbolToIndex g' = symbolToIndex g
  ∧ length (currencies g') = length (currencies g)
  ∧ length (currencyInfoLock g') = length (currencyInfoLock g)
  ∧ ∀ j, j ≠ i → currencies g' !! j = currencies g !! j
               ∧ currencyInfoLock g' !! j = currencyInfoLock g !! j.

(** * Properties *)

(** ** Mutexes and field assignments *)

Lemma lockAt_free i (ls : list bool) :
  ls !! i = Some false → lockAt i ls = Ok (<[i := true]> ls).
Proof. intros H. unfold lockAt. by rewrite H. Qed.

Lemma unlockAt_held i (ls : list bool) :
  ls !! i = Some false → unlockAt i (<[i := true]> ls) = Ok ls.
Proof.
  intros H. unfold unlockAt.
  rewrite list_lookup_insert_eq by (by eapply lookup_lt_Some).
  by rewrite list_insert_insert_eq, list_insert_id.
Qed.

Lemma assign_Ok i f v (cs : list currencyInfo) c :
  cs !! i = Some c → assign i f v cs = Ok (<[i := setField f v c]> cs).
Proof. intros H. unfold assign. by rewrite H. Qed.

Lemma assign_again i f v (cs : list currencyInfo) c c' :
  cs !! i = Some c →
  assign i f v (<[i := c']> cs) = Ok (<[i := setField f v c']> cs).
Proof.
  intros H. unfold assign.
  rewrite list_lookup_insert_eq by (by eapply lookup_lt_Some).
  by rewrite list_insert_insert_eq.
Qed.

(** [writeQuote] in closed form: what the eight guarded statements do. *)
Lemma writeQuote_unfold i tu g :
  writeQuote i tu g =
    match currencyInfoLock g !! i with
    | None => Panic
    | Some true => Blocked
    | Some false =>
        match currencies g !! i with
        | None => Panic
        | Some c => Ok (with_currencies (<[i := setQuote tu c]> (currencies g)) g)
        end
    end.
Proof.
  unfold writeQuote.
  destruct (currencyInfoLock g !! i) as [[]|] eqn:Hl;
    [by unfold lockAt; rewrite Hl | | by unfold lockAt; rewrite Hl].
  rewrite (lockAt_free _ _ Hl). cbn [rbind].
  destruct (currencies g !! i) as [c|] eqn:Hc;
    [| by unfold assign; rewrite Hc].
  rewrite (assign_Ok _ _ _ _ _ Hc). cbn [rbind].
  do 5 (rewrite (assign_again _ _ _ _ _ _ Hc); cbn [rbind]).
  rewrite (unlockAt_held _ _ Hl). cbn [rbind].
  destruct g; reflexivity.
Qed.

(** ** The registry built by [doConfig] *)

Lemma registerFrom_notin i syms m s :
  s ∉ syms → registerFrom i syms m !! s = m !! s.
Proof.
  revert i m. induction syms as [|a syms IH]; intros i m Hs; [done|].
  apply not_elem_of_cons in Hs as [Hne Hs]. cbn.
  by rewrite IH, lookup_insert_ne.
Qed.

Lemma registerFrom_last i syms m s j :
  syms !! j = Some s →
  (∀ j', j < j' → syms !! j' ≠ Some s) →
  registerFrom i syms m !! s = Some (i + j).
Proof.
  revert i m j. induction syms as [|a syms IH]; intros i m j Hj Hlast; [done|].
  destruct j as [|j]; cbn in *.
  - injection Hj as ->.
    rewrite registerFrom_notin, lookup_insert_eq; [f_equal; lia|].
    intros [k Hk]%list_elem_of_lookup. by apply (Hlast (S k)); [lia|].
  - rewrite (IH (S i) _ j); [f_equal; lia|done|].
    intros j' Hlt. apply (Hlast (S j')). lia.
Qed.

Lemma registerFrom_Some i syms m s k :
  registerFrom i syms m !! s = Some k →
  (∃ j, k = i + j ∧ syms !! j = Some s ∧ ∀ j', j < j' → syms !! j' ≠ Some s)
  ∨ ((s ∉ syms) ∧ m !! s = Some k).
Proof.
  revert i m. induction syms as [|a syms IH]; intros i m H; cbn in H.
  - right. split; [apply not_elem_of_nil|done].
  - destruct (IH _ _ H) as [(j & -> & Hj & Hlast)|[Hnotin Hm]].
    + left. exists (S j). split; [lia|]. split; [done|].
      intros [|j'] Hlt; [lia|]. cbn. apply Hlast. lia.
    + destruct (decide (a = s)) as [->|Hne].
      * rewrite lookup_insert_eq in Hm. injection Hm as <-.
        left. exists 0. split; [lia|]. split; [done|].
        intros [|j'] Hlt; [lia|]. cbn. intros Hin.
        apply Hnotin, list_elem_of_lookup. eauto.
      * rewrite lookup_insert_ne in Hm by done.
        right. split; [|done]. by apply not_elem_of_cons.
Qed.

(** The registry holds a symbol at slot [k] exactly when [k] is the last
    position of the symbol in the configured list. *)
Lemma registry_lookup syms s k :
  registerFrom 0 syms ∅ !! s = Some k ↔
  syms !! k = Some s ∧ ∀ j, k < j → syms !! j ≠ Some s.
Proof.
  split.
  - intros [(j & -> & Hj & Hlast)|[_ Hm]]%registerFrom_Some; [done|].
    by rewrite lookup_empty in Hm.
  - intros [Hk Hlast]. by rewrite (registerFrom_last 0 syms ∅ s k).
Qed.

Lemma registry_lookup_None syms s :
  registerFrom 0 syms ∅ !! s = None ↔ s ∉ syms.
Proof.
  split.
  - intros Hnone [k Hk]%list_elem_of_lookup.
    assert (∃ j, syms !! j = Some s ∧ ∀ j', j < j' → syms !! j' ≠ Some s)
      as (j & Hj & Hlast).
    { clear Hnone. revert k Hk. induction syms as [|a syms IH]; intros k Hk; [done|].
      destruct (decide (s ∈ syms)) as [[k' Hk']%list_elem_of_lookup|Hnotin].
      - destruct (IH _ Hk') as (j & Hj & Hlast). exists (S j). split; [done|].
        intros [|j'] Hlt; [lia|]. apply Hlast. lia.
      - destruct k as [|k]; cbn in Hk.
        + injection Hk as ->. exists 0. split; [done|].
          intros [|j'] Hlt; [lia|]. cbn. intros Hin.
          apply Hnotin, list_elem_of_lookup. eauto.
        + exfalso. apply Hnotin, list_elem_of_lookup. eauto. }
    by rewrite (registerFrom_last 0 syms ∅ s j) in Hnone.
  - intros Hnotin. by rewrite registerFrom_notin, lookup_empty.
Qed.

Lemma registry_slot_in_range syms s k :
  registerFrom 0 syms ∅ !! s = Some k → k < length syms.
Proof. intros [Hk _]%registry_lookup. by eapply lookup_lt_Some. Qed.


(** ** Fields kept by a store update *)

Lemma keeps_refl fs cs : keeps fs cs cs.
Proof. split; [done|]. intros j r r' H1 H2. by simplify_eq. Qed.

Lemma keeps_trans fs cs1 cs2 cs3 :
  keeps fs cs1 cs2 → keeps fs cs2 cs3 → keeps fs cs1 cs3.
Proof.
  intros [Hl12 H12] [Hl23 H23]. split; [congruence|].
  intros j r1 r3 H1 H3 f Hf.
  destruct (lookup_lt_is_Some_2 cs2 j) as [r2 H2].
  { rewrite Hl12. by eapply lookup_lt_Some. }
  rewrite (H23 j r2 r3 H2 H3 f Hf). by apply (H12 j r1 r2).
Qed.

Lemma keeps_insert fs (cs : list currencyInfo) i c c' :
  cs !! i = Some c →
  (∀ f, f ∈ fs → getField f c' = getField f c) →
  keeps fs cs (<[i := c']> cs).
Proof.
  intros Hc Hf. split; [apply length_insert|].
  intros j r r' Hr Hr' f Hin.
  destruct (decide (i = j)) as [->|Hne].
  - rewrite list_lookup_insert_eq in Hr' by (by eapply lookup_lt_Some).
    simplify_eq. by apply Hf.
  - rewrite list_lookup_insert_ne in Hr' by done. by simplify_eq.
Qed.

Lemma setQuote_static tu c f : f ∈ staticFields → getField f (setQuote tu c) = getField f c.
Proof.
  unfold staticFields. rewrite !elem_of_cons, elem_of_nil.
  by intros [->|[->|[->|[]]]].
Qed.

Lemma setQuote_quoteOf tu c : quoteOf (setQuote tu c) = quoteOfUpdate tu.
Proof. reflexivity. Qed.

Lemma setQuote_staticOf tu c : staticOf (setQuote tu c) = staticOf c.
Proof. reflexivity. Qed.

Lemma keeps_staticOf cs cs' j r r' :
  keeps staticFields cs cs' → cs !! j = Some r → cs' !! j = Some r' →
  staticOf r' = staticOf r.
Proof.
  intros [_ H] Hr Hr'. unfold staticOf. apply map_ext_in.
  intros f Hf%list_elem_of_In. by apply (H j r r').
Qed.

Lemma keeps_quoteOf cs cs' j r r' :
  keeps quoteFields cs cs' → cs !! j = Some r → cs' !! j = Some r' →
  quoteOf r' = quoteOf r.
Proof.
  intros [_ H] Hr Hr'. unfold quoteOf. apply map_ext_in.
  intros f Hf%list_elem_of_In. by apply (H j r r').
Qed.

(** ** Well-formed globals *)

Lemma doConfig_wf env : wf (doConfig env).
Proof. split; cbn; [apply length_replicate|done|done]. Qed.

Lemma wf_lock_lookup g i :
  wf g →
  currencyInfoLock g !! i = (if decide (i < length (currencies g)) then Some false else None).
Proof.
  intros [Hc Hl _]. rewrite Hl, Hc. case_decide.
  - by apply lookup_replicate_2.
  - apply lookup_replicate_None. lia.
Qed.

(** Between operations [writeQuote] neither waits nor fails on a valid slot,
    and panics on a slot out of range. *)
Lemma writeQuote_wf_unfold i tu g :
  wf g →
  writeQuote i tu g =
    match currencies g !! i with
    | Some c => Ok (with_currencies (<[i := setQuote tu c]> (currencies g)) g)
    | None => Panic
    end.
Proof.
  intros Hwf. rewrite writeQuote_unfold, (wf_lock_lookup _ _ Hwf).
  case_decide as Hlt; [done|].
  by rewrite (lookup_ge_None_2 (currencies g) i) by lia.
Qed.

Lemma with_currencies_wf g cs :
  wf g → length cs = length (currencies g) → wf (with_currencies cs g).
Proof. intros [Hc Hl Hr] Hlen. split; cbn; [congruence|done|done]. Qed.

Lemma writeQuote_wf i tu g g' :
  wf g → writeQuote i tu g = Ok g' →
  wf g' ∧ appConf g' = appConf g ∧ symbolToIndex g' = symbolToIndex g
  ∧ keeps staticFields (currencies g) (currencies g').
Proof.
  intros Hwf. rewrite (writeQuote_wf_unfold _ _ _ Hwf).
  destruct (currencies g !! i) as [c|] eqn:Hc; [|done].
  intros [= <-]. split; [|split; [done|split; [done|]]].
  - apply with_currencies_wf; [done|]. apply length_insert.
  - cbn. eapply keeps_insert; [done|]. intros f Hf. by apply setQuote_static.
Qed.

Lemma applyUpdates_wf tus g g' :
  wf g → applyUpdates tus g = Ok g' →
  wf g' ∧ appConf g' = appConf g ∧ symbolToIndex g' = symbolToIndex g
  ∧ keeps staticFields (currencies g) (currencies g').
Proof.
  revert g. induction tus as [|tu tus IH]; intros g Hwf; cbn.
  - intros [= <-]. split_and!; try done. apply keeps_refl.
  - unfold setCurrencyInfo.
    destruct (writeQuote _ tu g) as [g1| |] eqn:Hw; cbn; [|done..].
    destruct (writeQuote_wf _ _ _ _ Hwf Hw) as (Hwf1 & Ha & Hs & Hk).
    intros Happ. destruct (IH _ Hwf1 Happ) as (Hwf' & Ha' & Hs' & Hk').
    split_and!; [done|congruence|congruence|by eapply keeps_trans].
Qed.

(** ** Initialization *)

(** From well-formed globals the start-up loop never panics: it returns,
    with an error or without, having changed static fields only. *)
Lemma initializeFrom_returns i syms c g :
  wf g → i + length syms ≤ length (currencies g) →
  ∃ err g' c',
    initializeFrom i syms c g = Ok (err, g', c')
    ∧ wf g' ∧ appConf g' = appConf g
    ∧ keeps quoteFields (currencies g) (currencies g').
Proof.
  revert i c g. induction syms as [|symbol syms IH]; intros i c g Hwf Hlen.
  { exists None, g, c. split_and!; try done. apply keeps_refl. }
  cbn [initializeFrom length] in *.
  destruct (getSymbol symbol c) as [[gs|e] c1].
  2:{ exists (Some e), g, c1. split_and!; try done. apply keeps_refl. }
  destruct (lookup_lt_is_Some_2 (currencies g) i) as [r Hr]; [lia|].
  rewrite (assign_Ok _ _ _ _ _ Hr). cbn [rbind].
  rewrite (assign_again _ _ _ _ _ _ Hr). cbn [rbind].
  rewrite list_lookup_insert_eq by (by eapply lookup_lt_Some). cbn [rbind].
  set (r2 := setField fID _ (setField fFeeCurrency _ r)).
  assert (∀ v f, f ∈ quoteFields → getField f (setField fFullName v r2) = getField f r)
    as Hq3.
  { intros v f. unfold quoteFields. rewrite !elem_of_cons, elem_of_nil.
    by intros [->|[->|[->|[->|[->|[->|[]]]]]]]. }
  assert (∀ f, f ∈ quoteFields → getField f r2 = getField f r) as Hq2.
  { intros f. unfold quoteFields. rewrite !elem_of_cons, elem_of_nil.
    by intros [->|[->|[->|[->|[->|[->|[]]]]]]]. }
  destruct (getCurrency (ID r2) c1) as [[gcs|e] c2].
  2:{ eexists _, _, _. split; [done|]. split_and!.
      - apply with_currencies_wf; [done|]. apply length_insert.
      - done.
      - eapply keeps_insert; [done|apply Hq2]. }
  rewrite (assign_again _ _ _ _ _ _ Hr). cbn [rbind].
  set (g2 := with_currencies _ g).
  assert (wf g2) as Hwf2.
  { apply with_currencies_wf; [done|]. apply length_insert. }
  destruct (IH (S i) c2 g2 Hwf2) as (err & g' & c' & Hrun & Hwf' & Ha & Hk).
  { cbn. rewrite length_insert. lia. }
  exists err, g', c'. split_and!; [done|done|rewrite Ha; reflexivity|].
  eapply keeps_trans; [|exact Hk].
  eapply keeps_insert; [done|apply Hq3].
Qed.

Lemma initializeCurrencyInfo_returns env c :
  ∃ err g' c',
    initializeCurrencyInfo c (doConfig env) = Ok (err, g', c')
    ∧ wf g' ∧ appConf g' = appConf (doConfig env)
    ∧ keeps quoteFields (currencies (doConfig env)) (currencies g').
Proof.
  apply initializeFrom_returns; [apply doConfig_wf|].
  cbn. by rewrite length_replicate.
Qed.

Lemma initialized_wf g0 : initialized g0 → wf g0.
Proof.
  intros (env & c & err & c' & Hinit).
  destruct (initializeCurrencyInfo_returns env c) as (? & ? & ? & Hrun & Hwf & _).
  rewrite Hrun in Hinit. by simplify_eq.
Qed.

Lemma initialized_quote_empty g0 i r :
  initialized g0 → currencies g0 !! i = Some r → quoteOf r = replicate 6 "".
Proof.
  intros (env & c & err & c' & Hinit) Hr.
  destruct (initializeCurrencyInfo_returns env c) as (? & ? & ? & Hrun & _ & _ & Hk).
  rewrite Hrun in Hinit. simplify_eq.
  destruct (lookup_lt_is_Some_2 (currencies (doConfig env)) i) as [r0 Hr0].
  { destruct Hk as [<- _]. by eapply lookup_lt_Some. }
  rewrite (keeps_quoteOf _ _ _ _ _ Hk Hr0 Hr).
  cbn in Hr0. apply lookup_replicate_1 in Hr0 as [-> _]. reflexivity.
Qed.

Lemma reachable_wf g : reachable g → wf g.
Proof.
  intros (g0 & tus & Hinit & Happ).
  by destruct (applyUpdates_wf _ _ _ (initialized_wf _ Hinit) Happ) as [? _].
Qed.

(** ** Reads between operations *)

Lemma with_locks_same g : with_locks (currencyInfoLock g) g = g.
Proof. by destruct g. Qed.

Lemma readOne_unfold i g :
  wf g →
  readOne i g =
    match currencies g !! i with
    | Some c => Ok (c, g)
    | None => Panic
    end.
Proof.
  intros Hwf. unfold readOne. unfold lockAt at 1.
  pose proof (wf_lock_lookup g i Hwf) as Hl. case_decide as Hlt.
  - rewrite Hl. cbn [rbind].
    destruct (lookup_lt_is_Some_2 (currencies g) i Hlt) as [c ->].
    rewrite (unlockAt_held _ _ Hl). cbn [rbind]. by rewrite with_locks_same.
  - rewrite Hl. by rewrite (lookup_ge_None_2 (currencies g) i) by lia.
Qed.

Lemma copySlot_unfold i res g c :
  wf g → currencies g !! i = Some c → i < length res →
  copySlot i (res, g) = Ok (<[i := c]> res, g).
Proof.
  intros Hwf Hc Hres. unfold copySlot, lockAt.
  pose proof (wf_lock_lookup g i Hwf) as Hl.
  rewrite decide_True in Hl by (by eapply lookup_lt_Some).
  rewrite Hl, Hc. cbn [rbind].
  destruct (lookup_lt_is_Some_2 res i Hres) as [? ->].
  rewrite (unlockAt_held _ _ Hl). cbn [rbind]. by rewrite with_locks_same.
Qed.

(** The copy loop of [getAllCurrencies], entered at index [k] with the
    first [k] slots of the result filled in. *)
Lemma copy_loop g n k res :
  wf g →
  k + n = length (currencies g) →
  length res = length (currencies g) →
  take k res = take k (currencies g) →
  forEach (seq k n) copySlot (res, g) = Ok (currencies g, g).
Proof.
  intros Hwf. revert k res. induction n as [|n IH]; intros k res Hk Hlen Htake.
  - cbn. rewrite !take_ge in Htake by lia. by subst.
  - cbn [seq forEach].
    destruct (lookup_lt_is_Some_2 (currencies g) k) as [c Hc]; [lia|].
    rewrite (copySlot_unfold k res g c) by (done || lia). cbn [rbind].
    apply IH; [lia|by rewrite length_insert|].
    rewrite (take_S_r _ _ _ Hc).
    rewrite (take_S_r _ _ c) by (apply list_lookup_insert_eq; lia).
    by rewrite take_insert_ge, Htake by lia.
Qed.

Lemma getAllCurrencies_unfold g :
  wf g →
  getAllCurrencies g =
    Ok ({| ContentType := Some "application/json";
           Body := JSONAll (currencies g) |}, g).
Proof.
  intros Hwf. unfold getAllCurrencies.
  rewrite (copy_loop g (length (currencies g)) 0); try done.
  by rewrite length_replicate.
Qed.


(** ** The sample run *)

Lemma sample_initialized :
  initializeCurrencyInfo sampleConn (doConfig (Some sampleConf))
  = Ok (None, sampleGlobals,
        {| inbound := [];
           writeErrors := [];
           sent := [ {| cmd_Method := "getSymbol"; cmd_Params := symbolParam "ETHBTC"; cmd_ID := 123 |};
                     {| cmd_Method := "getCurrency"; cmd_Params := getCurrencyParam "ETH"; cmd_ID := 123 |};
                     {| cmd_Method := "getSymbol"; cmd_Params := symbolParam "BTCUSD"; cmd_ID := 123 |};
                     {| cmd_Method := "getCurrency"; cmd_Params := getCurrencyParam "BTC"; cmd_ID := 123 |} ] |}).
Proof. reflexivity. Qed.

Lemma sample_reachable : reachable sampleGlobals.
Proof.
  exists sampleGlobals, []. split; [|done].
  eexists _, _, _, _. exact sample_initialized.
Qed.

(** ** Key registry *)

(** C9: [doConfig] registers every symbol of the configured list under its
    position in that list, the list being the one the environment gave, or
    the two default symbols.  The store gets one slot per entry; the
    assignment the loop makes at position [i] stores [i]; the finished
    registry maps a symbol to the last position it has in the list, so a
    repeated symbol resolves to its last slot (last write wins); and every
    configured symbol ends up registered with a slot inside the store, for
    whatever list was configured. *)
Theorem doConfig_registers_positions env :
  let syms := configuredSymbols env in
  let g := doConfig env in
  Symbols (appConf g) = syms
  ∧ length (currencies g) = length syms
  ∧ (∀ i s, syms !! i = Some s → registerFrom 0 (take (S i) syms) ∅ !! s = Some i)
  ∧ (∀ s k, lookup_symbol s g = Some k ↔
            syms !! k = Some s ∧ ∀ j, k < j → syms !! j ≠ Some s)
  ∧ (∀ s, s ∈ syms → ∃ k, lookup_symbol s g = Some k
                          ∧ k < length syms ∧ k < length (currencies g)).
Proof.
  intros syms g.
  assert (Symbols (appConf g) = syms) as Hsyms by (by destruct env).
  assert (length (currencies g) = length syms) as Hlen.
  { rewrite <-Hsyms. apply (wf_currencies _ (doConfig_wf env)). }
  assert (symbolToIndex g = registerFrom 0 syms ∅) as Hreg.
  { rewrite <-Hsyms. apply (wf_registry _ (doConfig_wf env)). }
  split_and!; [done|done| | |].
  - intros i s Hi. apply registry_lookup. split.
    + by rewrite lookup_take_lt by lia.
    + intros j Hj. by rewrite lookup_take_ge by lia.
  - intros s k. unfold lookup_symbol. rewrite Hreg. apply registry_lookup.
  - intros s Hs. unfold lookup_symbol. rewrite Hreg, Hlen.
    destruct (registerFrom 0 syms ∅ !! s) as [k|] eqn:Hk.
    + exists k. split; [done|]. split; by eapply registry_slot_in_range.
    + by apply registry_lookup_None in Hk.
Qed.

(** A list with a repeated symbol: ["A"] resolves to its last slot. *)
Lemma doConfig_registers_positions_witness :
  let g := doConfig (Some {| Hostname := "h"; Port := "p"; Symbols := ["A"; "B"; "A"] |}) in
  lookup_symbol "A" g = Some 2 ∧ lookup_symbol "B" g = Some 1
  ∧ lookup_symbol "C" g = None ∧ length (currencies g) = 3.
Proof.
  intros g.
  destruct (doConfig_registers_positions
              (Some {| Hostname := "h"; Port := "p"; Symbols := ["A"; "B"; "A"] |}))
    as (_ & Hlen & _ & Hlast & _).
  split_and!; [| |reflexivity|exact Hlen];
    apply Hlast; (split; [reflexivity|]);
    intros [|[|[|j]]] Hj; cbn; (lia || discriminate).
Defined.

(** ** Queries *)

(** C7: in every state a handler can find, a symbol that was not configured
    has no slot in the registry ([lookup] answers not-found, not slot 0), and
    [getSingleCurrency] for it returns normally with the plain-text
    "Unsupported symbol" answer: no panic, no JSON record, globals untouched. *)
Theorem unknown_symbol_query_not_found g symbol :
  reachable g →
  symbol ∉ Symbols (appConf g) →
  lookup_symbol symbol g = None
  ∧ getSingleCurrency symbol g =
      Ok ({| ContentType := None;
             Body := Text ("Unsupported symbol " +:+ symbol +:+ "!  Use one of:"
                           +:+ newline +:+ supportedLines (Symbols (appConf g))) |},
          g).
Proof.
  intros Hwf%reachable_wf Hnotin.
  assert (lookup_symbol symbol g = None) as Hnone.
  { unfold lookup_symbol. rewrite (wf_registry _ Hwf). by apply registry_lookup_None. }
  split; [done|]. unfold getSingleCurrency.
  unfold lookup_symbol in Hnone. by rewrite Hnone.
Qed.

Lemma unknown_symbol_query_not_found_witness :
  lookup_symbol "XXXYYY" sampleGlobals = None
  ∧ getSingleCurrency "XXXYYY" sampleGlobals =
      Ok ({| ContentType := None;
             Body := Text ("Unsupported symbol XXXYYY!  Use one of:" +:+ newline
                           +:+ "ETHBTC" +:+ newline +:+ "BTCUSD" +:+ newline) |},
          sampleGlobals).
Proof.
  apply (unknown_symbol_query_not_found sampleGlobals "XXXYYY").
  - exact sample_reachable.
  - cbn. rewrite !not_elem_of_cons. split_and!; [discriminate..|apply not_elem_of_nil].
Defined.




(** ** Writes *)

Lemma not_quote_field f :
  f ∉ quoteFields → f = fID ∨ f = fFullName ∨ f = fFeeCurrency.
Proof.
  unfold quoteFields. rewrite !not_elem_of_cons.
  intros (?&?&?&?&?&?&_). destruct f; auto; congruence.
Qed.

(** C5: take a state the ingestion loop has reached from the initialized
    store, and a slot that exists, with [c0] its record as initialization
    left it.  Then [writeQuote slot tu] returns, and [readOne slot] right
    after it returns a record whose six quote fields are those of [tu] and
    whose three static fields are those of [c0]; every other field of the
    slot, every other slot, the length of the store, the registry, the
    configuration and the mutexes are as before the write.  For an update
    whose symbol is registered at the slot this write is what
    [setCurrencyInfo] does, and the read is what [getSingleCurrency]
    encodes for a symbol registered there. *)
Theorem writeQuote_then_readOne g0 tus g slot tu c0 :
  initialized g0 →
  applyUpdates tus g0 = Ok g →
  currencies g0 !! slot = Some c0 →
  ∃ g' r,
    writeQuote slot tu g = Ok g'
    ∧ readOne slot g' = Ok (r, g')
    ∧ quoteOf r = quoteOfUpdate tu
    ∧ staticOf r = staticOf c0
    ∧ (∀ c f, currencies g !! slot = Some c → f ∉ quoteFields →
              getField f r = getField f c)
    ∧ (∀ j, j ≠ slot → currencies g' !! j = currencies g !! j)
    ∧ length (currencies g') = length (currencies g)
    ∧ (symbolToIndex g !! Params_Symbol tu = Some slot →
       setCurrencyInfo tu g = Ok g')
    ∧ (∀ symbol, symbolToIndex g' !! symbol = Some slot →
       getSingleCurrency symbol g' =
         Ok ({| ContentType := Some "application/json"; Body := JSONRecord r |}, g'))
    ∧ appConf g' = appConf g
    ∧ symbolToIndex g' = symbolToIndex g
    ∧ currencyInfoLock g' = currencyInfoLock g.
Proof.
  intros Hinit Happ Hc0.
  pose proof (initialized_wf _ Hinit) as Hwf0.
  destruct (applyUpdates_wf _ _ _ Hwf0 Happ) as (Hwf & _ & _ & Hk).
  destruct (lookup_lt_is_Some_2 (currencies g) slot) as [c Hc].
  { destruct Hk as [-> _]. by eapply lookup_lt_Some. }
  pose proof (writeQuote_wf_unfold slot tu g Hwf) as Hw. rewrite Hc in Hw.
  destruct (writeQuote_wf _ _ _ _ Hwf Hw) as (Hwf' & _ & _ & _).
  assert (readOne slot (with_currencies (<[slot := setQuote tu c]> (currencies g)) g)
          = Ok (setQuote tu c,
                with_currencies (<[slot := setQuote tu c]> (currencies g)) g)) as Hr.
  { rewrite (readOne_unfold _ _ Hwf'). cbn.
    by rewrite list_lookup_insert_eq by (by eapply lookup_lt_Some). }
  eexists _, (setQuote tu c). split; [exact Hw|].
  split_and!; [done| | | | | | | |done..].
  - apply setQuote_quoteOf.
  - rewrite setQuote_staticOf. by eapply keeps_staticOf.
  - intros c' f Hc' Hf. simplify_eq.
    by destruct (not_quote_field f Hf) as [->|[->| ->]].
  - intros j Hj. cbn. by rewrite list_lookup_insert_ne.
  - cbn. apply length_insert.
  - intros Hs. unfold setCurrencyInfo. by rewrite Hs.
  - intros symbol Hs. unfold getSingleCurrency. by rewrite Hs, Hr.
Qed.

(** The scenario of the README: the ETHBTC ticker lands in slot 0. *)
Lemma writeQuote_then_readOne_witness :
  ∃ g' r,
    writeQuote 0 ethbtcTicker sampleGlobals = Ok g'
    ∧ readOne 0 g' = Ok (r, g')
    ∧ quoteOf r = ["0.054464"; "0.054463"; "0.054463"; "0.057133"; "0.053615"; "0.057559"]
    ∧ staticOf r = ["ETH"; "Ethereum"; "BTC"].
Proof.
  destruct (writeQuote_then_readOne sampleGlobals [] sampleGlobals 0 ethbtcTicker
              {| ID := "ETH"; FullName := "Ethereum"; Ask := ""; Bid := ""; Last := "";
                 Open := ""; Low := ""; High := ""; FeeCurrency := "BTC" |})
    as (g' & r & Hw & Hr & Hq & Hs & _).
  - eexists _, _, _, _. exact sample_initialized.
  - reflexivity.
  - reflexivity.
  - exists g', r. by split_and!.
Defined.

(** An update aimed at another slot leaves a slot's record as it is. *)
Lemma applyUpdates_other_slots tus g g' slot :
  wf g →
  applyUpdates tus g = Ok g' →
  Forall (λ tu, default 0 (symbolToIndex g !! Params_Symbol tu) ≠ slot) tus →
  currencies g' !! slot = currencies g !! slot.
Proof.
  revert g. induction tus as [|tu tus IH]; intros g Hwf Happ Hall; cbn in Happ.
  - by simplify_eq.
  - apply Forall_cons in Hall as [Hne Hall]. unfold setCurrencyInfo in Happ.
    destruct (writeQuote _ tu g) as [g1| |] eqn:Hw; cbn in Happ; [|done..].
    destruct (writeQuote_wf _ _ _ _ Hwf Hw) as (Hwf1 & _ & Hs & _).
    rewrite (IH g1 Hwf1 Happ) by (by rewrite Hs).
    rewrite (writeQuote_wf_unfold _ _ _ Hwf) in Hw.
    destruct (currencies g !! _) eqn:Hc; [|done]. simplify_eq. cbn.
    by rewrite list_lookup_insert_ne.
Qed.

(** C10: [initializeCurrencyInfo] always returns on the globals [doConfig]
    built, and in the state it leaves, and in any later state reached by
    updates that all went to other slots, [readOne] of a slot returns a
    record whose six quote fields are the empty string. *)
Theorem quote_fields_empty_until_first_update env c :
  ∃ err g0 c',
    initializeCurrencyInfo c (doConfig env) = Ok (err, g0, c')
    ∧ length (currencies g0) = length (Symbols (appConf (doConfig env)))
    ∧ ∀ slot tus g,
        slot < length (currencies g0) →
        applyUpdates tus g0 = Ok g →
        Forall (λ tu, default 0 (symbolToIndex g0 !! Params_Symbol tu) ≠ slot) tus →
        ∃ r, readOne slot g = Ok (r, g) ∧ quoteOf r = replicate 6 "".
Proof.
  destruct (initializeCurrencyInfo_returns env c) as (err & g0 & c' & Hrun & Hwf & Ha & Hk).
  exists err, g0, c'. split; [done|]. split.
  { rewrite (wf_currencies _ Hwf). by rewrite Ha. }
  intros slot tus g Hslot Happ Hall.
  destruct (applyUpdates_wf _ _ _ Hwf Happ) as (Hwf' & _).
  destruct (lookup_lt_is_Some_2 _ _ Hslot) as [r Hr].
  exists r. split.
  - rewrite (readOne_unfold _ _ Hwf').
    by rewrite (applyUpdates_other_slots _ _ _ _ Hwf Happ Hall), Hr.
  - eapply initialized_quote_empty; [|exact Hr]. by eexists _, _, _, _.
Qed.

(** After the sample start-up and a BTCUSD ticker, slot 0 still reads empty. *)
Lemma quote_fields_empty_until_first_update_witness :
  ∃ g r, applyUpdates [btcusdTicker] sampleGlobals = Ok g
         ∧ readOne 0 g = Ok (r, g) ∧ quoteOf r = replicate 6 "".
Proof.
  destruct (quote_fields_empty_until_first_update (Some sampleConf) sampleConn)
    as (err & g0 & c' & Hrun & _ & H).
  rewrite sample_initialized in Hrun. injection Hrun as <- <- <-.
  destruct (applyUpdates [btcusdTicker] sampleGlobals) as [g| |] eqn:Hg; [|done..].
  destruct (H 0 [btcusdTicker] g) as (r & Hr & Hq).
  - cbn. lia.
  - exact Hg.
  - repeat constructor. vm_compute. discriminate.
  - by exists g, r.
Defined.

(** ** The ingestion loop *)

Lemma ingest_prefix ms tus rest g g' :
  Forall2 (λ om tu, ∃ m, om = Some m ∧ asTickerUpdate m = Some tu) ms tus →
  applyUpdates tus g = Ok g' →
  ingest (ms ++ rest) g = ingest rest g'.
Proof.
  intros Hdec. revert g.
  induction Hdec as [|om tu ms tus (m & -> & Hm) _ IH]; intros g Happ; cbn in *.
  - by simplify_eq.
  - rewrite Hm. destruct (setCurrencyInfo tu g) as [g1| |]; cbn in Happ; [|done..].
    by apply IH.
Qed.

(** C4: when the ingestion loop has applied the updates of the messages
    received so far and the next message does not decode as a ticker
    update, the loop ends in [panic(err)], with the store as those updates
    left it; whatever the feed would have delivered afterwards is never
    read. *)
Theorem decode_failure_ends_ingestion ms tus m rest g g' :
  Forall2 (λ om tu, ∃ m, om = Some m ∧ asTickerUpdate m = Some tu) ms tus →
  applyUpdates tus g = Ok g' →
  asTickerUpdate m = None →
  ingest (ms ++ Some m :: rest) g = (decodePanic, g').
Proof.
  intros Hdec Happ Hm. rewrite (ingest_prefix _ _ _ _ _ Hdec Happ).
  cbn. by rewrite Hm.
Qed.

(** A malformed message between the ETHBTC and the BTCUSD ticker: the
    second ticker never reaches the store. *)
Lemma decode_failure_ends_ingestion_witness :
  ingest ([Some (tickerMessage ethbtcTicker)]
          ++ Some garbage :: [Some (tickerMessage btcusdTicker)]) sampleGlobals
  = (decodePanic, sampleQuoted).
Proof.
  apply (decode_failure_ends_ingestion _ [ethbtcTicker]).
  - repeat constructor. by eexists.
  - reflexivity.
  - reflexivity.
Defined.

(** An update whose symbol is not registered is written to slot 0. *)
Lemma setCurrencyInfo_unregistered tu g :
  wf g → Params_Symbol tu ∉ Symbols (appConf g) →
  setCurrencyInfo tu g = writeQuote 0 tu g.
Proof.
  intros Hwf Hnotin. unfold setCurrencyInfo.
  rewrite (wf_registry _ Hwf).
  by rewrite (proj2 (registry_lookup_None _ _) Hnotin).
Qed.

Lemma setCurrencyInfo_unregistered_overwrites tu g c :
  wf g → Params_Symbol tu ∉ Symbols (appConf g) →
  currencies g !! 0 = Some c →
  setCurrencyInfo tu g
  = Ok (with_currencies (<[0 := setQuote tu c]> (currencies g)) g).
Proof.
  intros Hwf Hnotin Hc.
  rewrite (setCurrencyInfo_unregistered _ _ Hwf Hnotin).
  by rewrite (writeQuote_wf_unfold _ _ _ Hwf), Hc.
Qed.

(** C1 (the code departs from the specification): after the sample
    start-up and the ETHBTC ticker the store holds that quote in slot 0; a
    ticker for the unregistered symbol XXXYYY is ingested; the loop writes
    its six fields over slot 0, and [readAll] is not what it was. *)
Theorem unknown_symbol_event_overwrites_slot0 :
  ∃ g',
    reachable sampleQuoted
    ∧ snd (ingest [Some (tickerMessage unknownTicker)] sampleQuoted) = g'
    ∧ setCurrencyInfo unknownTicker sampleQuoted = Ok g'
    ∧ lookup_symbol "XXXYYY" sampleQuoted = None
    ∧ readAll sampleQuoted = Ok (currencies sampleQuoted)
    ∧ readAll g' =
        Ok [ {| ID := "ETH"; FullName := "Ethereum"; Ask := "1"; Bid := "2";
                Last := "3"; Open := "4"; Low := "5"; High := "6";
                FeeCurrency := "BTC" |};
             {| ID := "BTC"; FullName := "Bitcoin"; Ask := ""; Bid := ""; Last := "";
                Open := ""; Low := ""; High := ""; FeeCurrency := "USD" |} ]
    ∧ readAll g' ≠ readAll sampleQuoted.
Proof.
  eexists. split.
  { exists sampleGlobals, [ethbtcTicker]. split; [|reflexivity].
    eexists _, _, _, _. exact sample_initialized. }
  split; [reflexivity|]. split_and!; try reflexivity.
  vm_compute. discriminate.
Qed.

(** ** Start-up *)

(** [main] goes on the same way whatever [initializeCurrencyInfo] returned. *)
Lemma main_drops_init_error env c err g c1 :
  initializeCurrencyInfo c (doConfig env) = Ok (err, g, c1) →
  main env (Some c) =
    match subscribeAll (Symbols (appConf g)) c1 with
    | (Some _, c2) => subscribeFailed g c2
    | (None, c2) => serving g c2
    end.
Proof. intros H. unfold main, connectToAPI. by rewrite H. Qed.

(** C2 (the code departs from the specification): the reply to the second
    [getSymbol] does not decode.  [initializeCurrencyInfo] stops there and
    returns the error, with ETHBTC resolved and BTCUSD not; [main] drops the
    error, subscribes and reaches the HTTP server, where a query for BTCUSD
    is answered with empty static fields. *)
Theorem failed_initialization_is_served :
  ∃ g c1 c2,
    initializeCurrencyInfo brokenConn (doConfig (Some sampleConf))
      = Ok (Some errUnmarshal, g, c1)
    ∧ main (Some sampleConf) (Some brokenConn) = serving g c2
    ∧ currencies g =
        [ {| ID := "ETH"; FullName := "Ethereum"; Ask := ""; Bid := ""; Last := "";
             Open := ""; Low := ""; High := ""; FeeCurrency := "BTC" |};
          zeroCurrencyInfo ]
    ∧ getSingleCurrency "BTCUSD" g =
        Ok ({| ContentType := Some "application/json";
               Body := JSONRecord zeroCurrencyInfo |}, g).
Proof. eexists _, _, _. split_and!; reflexivity. Qed.

(** C3 does not hold of the code: no configuration ends start-up.  When
    the environment cannot be processed, [doConfig] goes on with the two
    default symbols; on a feed that answers, both are resolved, both
    subscriptions are sent and the HTTP server is started, whatever the
    turns the ingestion goroutine has taken.  A blank symbol list is not
    refused either: the feed is dialled and the server started on an empty
    store. *)
Lemma bad_configuration_reaches_serving :
  (∃ g c,
     (∀ k, startup true None (Some defaultFeed) k = listening g c)
     ∧ currencies g =
         [ {| ID := "BTC"; FullName := "Bitcoin"; Ask := ""; Bid := ""; Last := "";
              Open := ""; Low := ""; High := ""; FeeCurrency := "USD" |};
           {| ID := "ETH"; FullName := "Ethereum"; Ask := ""; Bid := ""; Last := "";
              Open := ""; Low := ""; High := ""; FeeCurrency := "BTC" |} ]
     ∧ lookup_symbol "BTCUSD" g = Some 0
     ∧ lookup_symbol "ETHBTC" g = Some 1
     ∧ sent c = [getSymbolCommand "BTCUSD"; getCurrencyCommand "BTC";
                 getSymbolCommand "ETHBTC"; getCurrencyCommand "ETH";
                 subscribeTickerCommand "BTCUSD"; subscribeTickerCommand "ETHBTC"])
  ∧ Symbols emptyConf = []
  ∧ (∀ k, startup true (Some emptyConf) (Some quietConn) k
          = listening (doConfig (Some emptyConf)) quietConn)
  ∧ currencies (doConfig (Some emptyConf)) = [].
Proof.
  split_and!; [|reflexivity| |reflexivity].
  - exists (with_currencies
              [ {| ID := "BTC"; FullName := "Bitcoin"; Ask := ""; Bid := ""; Last := "";
                   Open := ""; Low := ""; High := ""; FeeCurrency := "USD" |};
                {| ID := "ETH"; FullName := "Ethereum"; Ask := ""; Bid := ""; Last := "";
                   Open := ""; Low := ""; High := ""; FeeCurrency := "BTC" |} ]
              (doConfig None)),
           {| inbound := []; writeErrors := [];
              sent := [getSymbolCommand "BTCUSD"; getCurrencyCommand "BTC";
                       getSymbolCommand "ETHBTC"; getCurrencyCommand "ETH";
                       subscribeTickerCommand "BTCUSD"; subscribeTickerCommand "ETHBTC"] |}.
    split_and!; [|reflexivity..].
    intros [|k]; reflexivity.
  - intros [|k]; reflexivity.
Qed.

(** C3 as the code has it: an environment that [envconfig.Process] cannot
    process is not a fatal error.  [doConfig] then installs the default
    configuration - localhost, 8080, the symbols BTCUSD and ETHBTC - and
    builds the store, the mutex array and the registry for these two
    symbols, BTCUSD at slot 0 and ETHBTC at slot 1; start-up goes on to the
    dial, where a refused connection is what ends it. *)
Theorem doConfig_error_installs_defaults :
  let g := doConfig None in
  appConf g = {| Hostname := "localhost"; Port := "8080"; Symbols := ["BTCUSD"; "ETHBTC"] |}
  ∧ currencies g = [zeroCurrencyInfo; zeroCurrencyInfo]
  ∧ currencyInfoLock g = [false; false]
  ∧ (∀ s k, lookup_symbol s g = Some k ↔ (s = "BTCUSD" ∧ k = 0) ∨ (s = "ETHBTC" ∧ k = 1))
  ∧ (∀ k, startup true None None k = dialExit).
Proof.
  intros g. split_and!; [reflexivity..| |reflexivity].
  intros s k. unfold lookup_symbol.
  change (symbolToIndex g) with (registerFrom 0 ["BTCUSD"; "ETHBTC"] ∅).
  rewrite registry_lookup. split.
  - intros [Hk _]. destruct k as [|[|k]]; cbn in Hk; simplify_eq; [by left|by right].
  - intros [[-> ->]|[-> ->]]; (split; [reflexivity|]);
      intros [|[|j]] Hj; cbn; (lia || discriminate).
Qed.

(** ** Goroutines *)

(** The access lists are the code of the sequential functions. *)
Lemma runCode_writeQuote i tu loc g :
  runCode (writeQuoteCode i tu) loc g = (g' ←r writeQuote i tu g; Ok (loc, g')).
Proof.
  unfold writeQuoteCode, writeQuote. cbn [runCode quoteStores map app fst snd stepInstr].
  destruct (lockAt i (currencyInfoLock g)) as [ls| |]; cbn; [|done..].
  do 6 (match goal with
        | |- context [assign i ?f ?v ?cs] =>
            destruct (assign i f v cs); cbn; [|done..]
        end).
  by destruct (unlockAt i ls).
Qed.

Lemma copyFields_all c : copyFields allFields c zeroCurrencyInfo = c.
Proof. by destruct c. Qed.

Lemma runCode_readOne i g :
  runCode (readOneCode i) zeroCurrencyInfo g = readOne i g.
Proof.
  unfold readOneCode, readOne. cbn [runCode allFields map app stepInstr].
  destruct (lockAt i (currencyInfoLock g)) as [ls| |]; cbn; [|done..].
  destruct (currencies g !! i) as [c|] eqn:Hc; cbn; [|done].
  do 8 (rewrite Hc; cbn).
  destruct (unlockAt i ls); cbn; [|done..]. by destruct c.
Qed.

Lemma heldW_false kw : kw ≤ 8 → heldW kw = false → kw = 0 ∨ kw = 8.
Proof.
  unfold heldW. intros Hle [H|H]%andb_false_iff; apply Nat.leb_gt in H; lia.
Qed.

Lemma heldR_false kr : kr ≤ 11 → heldR kr = false → kr = 0 ∨ kr = 11.
Proof.
  unfold heldR. intros Hle [H|H]%andb_false_iff; apply Nat.leb_gt in H; lia.
Qed.

(** Normalizes the mutex bookkeeping of the invariant at known counts. *)
Ltac held_norm :=
  cbn [heldW heldR Nat.leb andb orb] in *.

(** Closes the side conditions of the invariant after one access. *)
Ltac inv_side :=
  first
    [ done
    | lia
    | by intros; congruence
    | by cbn; apply list_lookup_insert_eq
    | by cbn; rewrite list_lookup_insert_eq by done
    | by cbn;
         repeat match goal with
                | H : heldR _ = _ |- _ => rewrite H
                | H : heldW _ = _ |- _ => rewrite H
                end;
         try apply list_lookup_insert_eq ].

(** The writer's [k]-th access is a field assignment. *)
Ltac writer_store k :=
  match goal with
  | Hstep : _ = Some _, Hrec : currencies _ !! _ = Some _ |- raceInv _ _ _ _ =>
      unfold stepInstr, assign in Hstep; rewrite Hrec in Hstep; held_norm;
      cbn in Hstep; simplify_eq;
      eexists k, _, _; held_norm; cbn [threads shared];
      split_and!; inv_side
  end.

(** The reader's [k]-th access copies a field. *)
Ltac reader_load k :=
  match goal with
  | Hstep : _ = Some _, Hread : _ → currencies _ !! _ = Some ?rX |- raceInv _ _ _ _ =>
      unfold stepInstr in Hstep; held_norm; specialize (Hread eq_refl);
      rewrite Hread in Hstep; cbn in Hstep; injection Hstep as <-;
      eexists _, k, rX; held_norm; cbn [threads shared];
      split_and!; inv_side
  end.

(** One access of either goroutine keeps the invariant. *)
Lemma raceInv_step i tu r1 m m' :
  raceInv i tu r1 m → mstep m m' → raceInv i tu r1 m'.
Proof.
  intros (kw & kr & rX & Hth & Hkw & Hkr & Hex & Hlock & Hrec & HrX & Hread) [t Hstep].
  unfold stepThread in Hstep. rewrite Hth in Hstep.
  assert (i < length (currencyInfoLock (shared m))) as Hli by (by eapply lookup_lt_Some).
  assert (i < length (currencies (shared m))) as Hci by (by eapply lookup_lt_Some).
  destruct t as [|[|t]]; cbn [lookup list_lookup] in Hstep; [| |done].
  - (* the writer makes access [kw + 1] *)
    destruct kw as [|[|[|[|[|[|[|[|kw]]]]]]]];
      cbn [drop writeQuoteCode quoteStores map app fst snd] in Hstep;
      [ | writer_store 2 | writer_store 3 | writer_store 4 | writer_store 5
        | writer_store 6 | writer_store 7 | | by destruct kw].
    + (* [Lock]: only when the reader is outside its critical section *)
      unfold stepInstr, lockAt in Hstep. rewrite Hlock in Hstep. held_norm.
      destruct (heldR kr) eqn:HR; [done|]. cbn in Hstep. simplify_eq.
      exists 1, kr, rX. held_norm. cbn [threads shared].
      split_and!; inv_side.
    + (* [Unlock] *)
      unfold stepInstr, unlockAt in Hstep. rewrite Hlock in Hstep. held_norm.
      cbn in Hstep. simplify_eq.
      exists 8, kr, rX. held_norm. cbn [threads shared].
      split_and!; inv_side.
  - (* the reader makes access [kr + 1] *)
    destruct kr as [|[|[|[|[|[|[|[|[|[|[|kr]]]]]]]]]]];
      cbn [drop readOneCode allFields map app] in Hstep;
      [ | reader_load 2 | reader_load 3 | reader_load 4 | reader_load 5
        | reader_load 6 | reader_load 7 | reader_load 8 | reader_load 9
        | reader_load 10 | | by destruct kr].
    + (* [Lock]: only when the writer is outside its critical section, so
         the record found is the one before or the one after the write *)
      unfold stepInstr, lockAt in Hstep. rewrite Hlock in Hstep. held_norm.
      rewrite orb_false_r, ?andb_false_r in *.
      destruct (heldW kw) eqn:HW; [done|]. cbn in Hstep. simplify_eq.
      exists kw, 1, (applyStores (take (kw - 1) (quoteStores tu)) r1).
      held_norm. cbn [threads shared].
      split_and!; try inv_side.
      destruct (heldW_false kw Hkw HW) as [-> | ->]; [by left|by right].
    + (* [Unlock] *)
      unfold stepInstr, unlockAt in Hstep. rewrite Hlock in Hstep. held_norm.
      rewrite orb_true_r in Hstep. cbn in Hstep. simplify_eq.
      exists kw, 11, rX. held_norm. cbn [threads shared].
      rewrite andb_true_r in Hex. rewrite ?andb_false_r, ?orb_false_r.
      split_and!; inv_side.
Qed.

Lemma raceInv_init i tu g r1 :
  currencies g !! i = Some r1 →
  currencyInfoLock g !! i = Some false →
  raceInv i tu r1 (writerAndReader i tu g).
Proof.
  intros Hc Hl. exists 0, 0, r1. cbn [threads shared writerAndReader].
  split_and!; try done; try lia. by left.
Qed.

Lemma raceInv_rtc i tu r1 m m' :
  raceInv i tu r1 m → rtc mstep m m' → raceInv i tu r1 m'.
Proof. intros Hinv Hsteps. induction Hsteps; eauto using raceInv_step. Qed.

(** Shows that goroutine [t] can make its next access. *)
Ltac can_step t :=
  right; eexists; exists t; unfold stepThread;
  match goal with
  | Hth : threads _ = _ |- _ => rewrite Hth
  end;
  cbn [lookup list_lookup drop writeQuoteCode readOneCode quoteStores allFields
       map app fst snd];
  unfold stepInstr, lockAt, unlockAt, assign;
  repeat match goal with
         | H : currencyInfoLock _ !! _ = Some _ |- _ => rewrite H
         | H : currencies _ !! _ = Some _ |- _ => rewrite H
         end;
  held_norm; reflexivity.

(** No deadlock and no panic: while a goroutine has accesses left, one of
    the two can make its next access. *)
Lemma raceInv_progress i tu r1 m :
  raceInv i tu r1 m → finished m ∨ ∃ m', mstep m m'.
Proof.
  intros (kw & kr & rX & Hth & Hkw & Hkr & Hex & Hlock & Hrec & HrX & Hread).
  destruct (heldW kw) eqn:HW.
  - (* the writer is in its critical section *)
    destruct kw as [|[|[|[|[|[|[|[|kw]]]]]]]]; try discriminate HW; can_step 0.
  - destruct (heldR kr) eqn:HR.
    + (* the reader is in its critical section *)
      specialize (Hread eq_refl). clear Hrec.
      destruct kr as [|[|[|[|[|[|[|[|[|[|[|kr]]]]]]]]]]]; try discriminate HR;
        can_step 1.
    + (* the mutex is free *)
      destruct (heldW_false kw Hkw HW) as [-> | ->]; [can_step 0|].
      destruct (heldR_false kr Hkr HR) as [-> | ->]; [can_step 1|].
      left. unfold finished. rewrite Hth. by repeat constructor.
Qed.

Lemma stepThread_remaining t m m' :
  stepThread t m = Some m' → remaining m = S (remaining m').
Proof.
  unfold stepThread, remaining.
  destruct (threads m !! t) as [[[|ins rest] loc]|] eqn:Ht; [done| |done].
  destruct (stepInstr ins loc (shared m)) as [[loc' g']| |]; [|done..].
  intros [= <-]. cbn [threads].
  rewrite insert_take_drop by (by eapply lookup_lt_Some).
  rewrite <-(take_drop_middle _ _ _ Ht) at 1.
  rewrite !sum_list_with_app. cbn. lia.
Qed.

(** Every run can be continued until both goroutines have finished. *)
Lemma raceInv_completes i tu r1 n m :
  raceInv i tu r1 m → remaining m ≤ n →
  ∃ m', rtc mstep m m' ∧ finished m'.
Proof.
  revert m. induction n as [|n IH]; intros m Hinv Hn.
  - destruct (raceInv_progress _ _ _ _ Hinv) as [Hfin|[m' [t Hstep]]].
    + by exists m.
    + apply stepThread_remaining in Hstep. lia.
  - destruct (raceInv_progress _ _ _ _ Hinv) as [Hfin|[m' Hstep]].
    + by exists m.
    + destruct (IH m') as (m'' & Hsteps & Hfin).
      * by eapply raceInv_step.
      * destruct Hstep as [t Hstep]. apply stepThread_remaining in Hstep. lia.
      * exists m''. split; [|done]. by eapply rtc_l.
Qed.

Lemma runSchedule_rtc sched m : rtc mstep m (runSchedule sched m).
Proof.
  revert m. induction sched as [|t sched IH]; intros m; cbn; [done|].
  destruct (stepThread t m) as [m'|] eqn:Hstep; [|done].
  eapply rtc_l; [by exists t|done].
Qed.


(** C6: slot [slot] holds the fields of [tu1], written by a completed
    [writeQuote]; the ingestion goroutine then writes [tu2] to the slot
    while a handler reads it, their accesses interleaved in any way the
    mutex allows.  The run never deadlocks or panics and can always be
    completed; the two are never both between their [Lock] and their
    [Unlock]; and when both have finished the record the handler copied is
    the slot's record before the second write or the one after it: its six
    quote fields are exactly those of [tu1] or exactly those of [tu2]. *)
Theorem readOne_never_torn g0 g1 slot tu1 tu2 m :
  writeQuote slot tu1 g0 = Ok g1 →
  rtc mstep (writerAndReader slot tu2 g1) m →
  (finished m ∨ ∃ m', mstep m m')
  ∧ (∃ m', rtc mstep m m' ∧ finished m')
  ∧ (∃ w r, threads m = [w; r]
            ∧ ¬ (0 < length (code w) < 8 ∧ 0 < length (code r) < 11))
  ∧ (finished m →
     ∃ r c1,
       local <$> threads m !! 1 = Some r
       ∧ currencies g1 !! slot = Some c1
       ∧ (r = c1 ∨ r = setQuote tu2 c1)
       ∧ (quoteOf r = quoteOfUpdate tu1 ∨ quoteOf r = quoteOfUpdate tu2)).
Proof.
  intros Hw Hsteps. rewrite writeQuote_unfold in Hw.
  destruct (currencyInfoLock g0 !! slot) as [[]|] eqn:Hl; try done.
  destruct (currencies g0 !! slot) as [c0|] eqn:Hc; [|done].
  injection Hw as <-.
  set (g1 := with_currencies _ g0) in *.
  assert (currencies g1 !! slot = Some (setQuote tu1 c0)) as Hc1.
  { cbn. apply list_lookup_insert_eq. by eapply lookup_lt_Some. }
  assert (raceInv slot tu2 (setQuote tu1 c0) m) as Hinv.
  { eapply raceInv_rtc; [|exact Hsteps]. by apply raceInv_init. }
  split_and!.
  - by eapply raceInv_progress.
  - by eapply raceInv_completes.
  - destruct Hinv as (kw & kr & rX & Hth & Hkw & Hkr & Hex & _).
    eexists _, _. split; [exact Hth|]. cbn [code].
    rewrite !length_drop. cbn [length writeQuoteCode readOneCode quoteStores
                                 allFields map app].
    intros [HW HR]. apply andb_false_iff in Hex as [Hex|Hex];
      apply andb_false_iff in Hex as [Hex|Hex]; apply Nat.leb_gt in Hex; lia.
  - intros Hfin.
    destruct Hinv as (kw & kr & rX & Hth & Hkw & Hkr & _ & _ & _ & HrX & _).
    unfold finished in Hfin. rewrite Hth in Hfin.
    apply Forall_cons in Hfin as [_ [Hr _]%Forall_cons]. cbn [code] in Hr.
    assert (kr = 11) as ->.
    { apply (f_equal length) in Hr. rewrite length_drop in Hr. cbn in Hr. lia. }
    exists rX, (setQuote tu1 c0). rewrite Hth. cbn [lookup list_lookup fmap option_fmap option_map local].
    split_and!; [by rewrite copyFields_all | done | done |].
    destruct HrX as [-> | ->]; [by left|by right].
Qed.

(** The handler takes the mutex first: it returns the fields of the first
    ticker, whole. *)
Lemma readOne_never_torn_witness :
  let m := runSchedule readerFirst (writerAndReader 0 ethbtcTicker2 sampleQuoted) in
  finished m
  ∧ ∃ r c1,
      local <$> threads m !! 1 = Some r
      ∧ currencies sampleQuoted !! 0 = Some c1
      ∧ (r = c1 ∨ r = setQuote ethbtcTicker2 c1)
      ∧ (quoteOf r = quoteOfUpdate ethbtcTicker ∨ quoteOf r = quoteOfUpdate ethbtcTicker2).
Proof.
  intros m.
  assert (finished m) as Hfin by (vm_compute; repeat constructor).
  split; [exact Hfin|].
  destruct (readOne_never_torn sampleGlobals sampleQuoted 0 ethbtcTicker ethbtcTicker2 m)
    as (_ & _ & _ & H).
  - reflexivity.
  - apply runSchedule_rtc.
  - exact (H Hfin).
Defined.

(** Both outcomes occur: which record the handler returns depends on who
    takes the mutex first. *)
Lemma both_reads_occur :
  local <$> threads (runSchedule readerFirst
                       (writerAndReader 0 ethbtcTicker2 sampleQuoted)) !! 1
  = currencies sampleQuoted !! 0
  ∧ local <$> threads (runSchedule writerFirst
                         (writerAndReader 0 ethbtcTicker2 sampleQuoted)) !! 1
    = setQuote ethbtcTicker2 <$> currencies sampleQuoted !! 0.
Proof. split; reflexivity. Qed.

(** * Further properties of the code *)

(** ** What start-up and ingestion keep *)

(** X1: neither [initializeCurrencyInfo] nor any run of ingested updates
    touches what [doConfig] built apart from the records: configuration,
    registry (so every lookup), the length of the store and the mutex
    array, with every mutex free again, are as [doConfig] left them. *)
Theorem registry_fixed_after_doConfig env c err g0 c' tus g :
  initializeCurrencyInfo c (doConfig env) = Ok (err, g0, c') →
  applyUpdates tus g0 = Ok g →
  appConf g = appConf (doConfig env)
  ∧ symbolToIndex g = symbolToIndex (doConfig env)
  ∧ (∀ s, lookup_symbol s g = lookup_symbol s (doConfig env))
  ∧ length (currencies g) = length (currencies (doConfig env))
  ∧ currencyInfoLock g = currencyInfoLock (doConfig env).
Proof.
  intros Hinit Happ.
  destruct (initializeCurrencyInfo_returns env c) as (? & ? & ? & Hrun & Hwf0 & Ha0 & _).
  rewrite Hrun in Hinit. simplify_eq.
  destruct (applyUpdates_wf _ _ _ Hwf0 Happ) as (Hwf & Ha & Hs & _).
  assert (appConf g = appConf (doConfig env)) as Hconf by congruence.
  assert (symbolToIndex g = symbolToIndex (doConfig env)) as Hreg.
  { by rewrite (wf_registry _ Hwf), Hconf. }
  split_and!; [done|done| |..].
  - intros s. unfold lookup_symbol. by rewrite Hreg.
  - rewrite (wf_currencies _ Hwf), Hconf. cbn. by rewrite length_replicate.
  - by rewrite (wf_locks _ Hwf), Hconf.
Qed.

Lemma registry_fixed_after_doConfig_witness :
  lookup_symbol "BTCUSD" sampleQuoted = lookup_symbol "BTCUSD" (doConfig (Some sampleConf))
  ∧ currencyInfoLock sampleQuoted = [false; false].
Proof.
  destruct (registry_fixed_after_doConfig _ _ _ _ _ [ethbtcTicker] sampleQuoted
              sample_initialized eq_refl) as (_ & _ & Hl & _ & Hk).
  split; [apply Hl|exact Hk].
Defined.

(** ** Handlers *)

(** X2: in every state a handler can find, both handlers return (no panic,
    no wait) and hand the globals back unchanged, every mutex released:
    [getAllCurrencies] encodes the store as it is, and [getSingleCurrency]
    for a registered symbol encodes the record at the symbol's slot, which
    exists. *)
Theorem handlers_return_and_change_nothing g symbol :
  reachable g →
  getAllCurrencies g =
    Ok ({| ContentType := Some "application/json"; Body := JSONAll (currencies g) |}, g)
  ∧ (∃ resp, getSingleCurrency symbol g = Ok (resp, g))
  ∧ (∀ k, lookup_symbol symbol g = Some k →
          ∃ r, currencies g !! k = Some r
               ∧ getSingleCurrency symbol g =
                   Ok ({| ContentType := Some "application/json";
                          Body := JSONRecord r |}, g)).
Proof.
  intros Hwf%reachable_wf.
  assert (∀ k, lookup_symbol symbol g = Some k →
          ∃ r, currencies g !! k = Some r
               ∧ getSingleCurrency symbol g =
                   Ok ({| ContentType := Some "application/json";
                          Body := JSONRecord r |}, g)) as Hreg.
  { intros k Hk. unfold lookup_symbol in Hk.
    destruct (lookup_lt_is_Some_2 (currencies g) k) as [r Hr].
    { rewrite (wf_currencies _ Hwf). eapply registry_slot_in_range.
      by rewrite <-(wf_registry _ Hwf). }
    exists r. split; [done|]. unfold getSingleCurrency.
    by rewrite Hk, (readOne_unfold _ _ Hwf), Hr. }
  split_and!; [by apply getAllCurrencies_unfold| |done].
  destruct (lookup_symbol symbol g) as [k|] eqn:Hk.
  - destruct (Hreg k eq_refl) as (r & _ & ->). by eexists.
  - unfold getSingleCurrency. unfold lookup_symbol in Hk. rewrite Hk. by eexists.
Qed.

Lemma handlers_return_and_change_nothing_witness :
  getSingleCurrency "ETHBTC" sampleQuoted =
    Ok ({| ContentType := Some "application/json";
           Body := JSONRecord
                     {| ID := "ETH"; FullName := "Ethereum"; Ask := "0.054464";
                        Bid := "0.054463"; Last := "0.054463"; Open := "0.057133";
                        Low := "0.053615"; High := "0.057559"; FeeCurrency := "BTC" |} |},
        sampleQuoted).
Proof.
  destruct (handlers_return_and_change_nothing sampleQuoted "ETHBTC") as (_ & _ & H).
  - exists sampleGlobals, [ethbtcTicker]. split; [|reflexivity].
    eexists _, _, _, _. exact sample_initialized.
  - destruct (H 0 eq_refl) as (r & Hr & Hget). cbn in Hr. by simplify_eq.
Defined.

(** ** Updates *)

Lemma applyUpdates_app tus1 tus2 g :
  applyUpdates (tus1 ++ tus2) g = (g' ←r applyUpdates tus1 g; applyUpdates tus2 g').
Proof.
  revert g. induction tus1 as [|tu tus1 IH]; intros g; cbn; [done|].
  destruct (setCurrencyInfo tu g); cbn; [apply IH|done..].
Qed.

Lemma reachable_update g tu g' :
  reachable g → setCurrencyInfo tu g = Ok g' → reachable g'.
Proof.
  intros (g0 & tus & Hinit & Happ) Hset. exists g0, (tus ++ [tu]).
  split; [done|]. rewrite applyUpdates_app, Happ. cbn. by rewrite Hset.
Qed.

Lemma setCurrencyInfo_slot_in_range tu g :
  wf g → currencies g ≠ [] →
  default 0 (symbolToIndex g !! Params_Symbol tu) < length (currencies g).
Proof.
  intros Hwf Hne. destruct (symbolToIndex g !! Params_Symbol tu) as [k|] eqn:Hk; cbn.
  - rewrite (wf_currencies _ Hwf). eapply registry_slot_in_range.
    by rewrite <-(wf_registry _ Hwf).
  - destruct (currencies g); [done|cbn; lia].
Qed.

(** Between operations [setCurrencyInfo] has two outcomes only, by whether
    the store has a slot. *)
Lemma setCurrencyInfo_cases g tu :
  reachable g →
  (Symbols (appConf g) = [] ∧ setCurrencyInfo tu g = Panic)
  ∨ (Symbols (appConf g) ≠ []
     ∧ ∃ g', setCurrencyInfo tu g = Ok g' ∧ reachable g' ∧ appConf g' = appConf g).
Proof.
  intros Hreach. pose proof (reachable_wf _ Hreach) as Hwf.
  assert (Symbols (appConf g) = [] ↔ currencies g = []) as Hempty.
  { by rewrite <-!length_zero_iff_nil, (wf_currencies _ Hwf). }
  destruct (decide (currencies g = [])) as [Hnil|Hne].
  - left. split; [by apply Hempty|]. unfold setCurrencyInfo.
    by rewrite (writeQuote_wf_unfold _ _ _ Hwf), Hnil.
  - right. split; [by rewrite Hempty|].
    pose proof (setCurrencyInfo_slot_in_range tu g Hwf Hne) as Hlt.
    apply lookup_lt_is_Some in Hlt as [r Hr].
    assert (setCurrencyInfo tu g
            = Ok (with_currencies
                    (<[default 0 (symbolToIndex g !! Params_Symbol tu)
                       := setQuote tu r]> (currencies g)) g)) as Hset.
    { unfold setCurrencyInfo. by rewrite (writeQuote_wf_unfold _ _ _ Hwf), Hr. }
    eexists. split; [exact Hset|]. split; [by eapply reachable_update|done].
Qed.

(** X3: between operations [setCurrencyInfo] never waits for a mutex, and
    it panics (index out of range) exactly when the store is empty: on a
    store with at least one slot every update is applied, whatever its
    symbol. *)
Theorem setCurrencyInfo_panics_iff_store_empty g tu :
  reachable g →
  setCurrencyInfo tu g ≠ Blocked
  ∧ (setCurrencyInfo tu g = Panic ↔ Symbols (appConf g) = [])
  ∧ (Symbols (appConf g) ≠ [] → ∃ g', setCurrencyInfo tu g = Ok g' ∧ reachable g').
Proof.
  intros Hreach.
  destruct (setCurrencyInfo_cases g tu Hreach)
    as [[Hnil Hset]|(Hne & g' & Hset & Hreach' & _)]; rewrite Hset.
  - by split_and!.
  - split_and!; [done| |by eauto]. by split.
Qed.

Lemma setCurrencyInfo_panics_iff_store_empty_witness :
  ∃ g', setCurrencyInfo unknownTicker sampleGlobals = Ok g' ∧ reachable g'.
Proof.
  destruct (setCurrencyInfo_panics_iff_store_empty sampleGlobals unknownTicker
              sample_reachable) as (_ & _ & H).
  apply H. discriminate.
Defined.

(** X4: on a store with at least one slot the ingestion loop ends in one of
    two ways only, a failed read or a message that does not decode: no
    update makes it panic in the store or wait.  On an empty store the
    first message that decodes makes it panic. *)
Theorem ingest_exits g inb :
  reachable g →
  (Symbols (appConf g) ≠ [] →
   fst (ingest inb g) = readFailed ∨ fst (ingest inb g) = decodePanic)
  ∧ (Symbols (appConf g) = [] →
     ∀ m tu rest, asTickerUpdate m = Some tu →
                  ingest (Some m :: rest) g = (storePanic, g)).
Proof.
  intros Hreach. split.
  - intros Hne. revert g Hreach Hne.
    induction inb as [|[m|] inb IH]; intros g Hreach Hne; cbn; [by left| |by left].
    destruct (asTickerUpdate m) as [tu|]; [|by right].
    destruct (setCurrencyInfo_cases g tu Hreach)
      as [[Hnil _]|(_ & g' & Hset & Hreach' & Ha)]; [done|].
    rewrite Hset. apply IH; [done|by rewrite Ha].
  - intros Hnil m tu rest Hm. cbn. rewrite Hm.
    destruct (setCurrencyInfo_cases g tu Hreach) as [[_ Hset]|[Hne _]]; [|done].
    by rewrite Hset.
Qed.

Lemma ingest_exits_witness :
  fst (ingest [Some (tickerMessage ethbtcTicker); Some (tickerMessage unknownTicker)]
         sampleGlobals) = readFailed
  ∨ fst (ingest [Some (tickerMessage ethbtcTicker); Some (tickerMessage unknownTicker)]
           sampleGlobals) = decodePanic.
Proof.
  destruct (ingest_exits sampleGlobals
              [Some (tickerMessage ethbtcTicker); Some (tickerMessage unknownTicker)]
              sample_reachable) as (H & _).
  apply H. discriminate.
Defined.

(** X5: when the ingestion loop has applied the updates of the messages
    received so far and the next read fails, the loop returns with the
    store as those updates left it; nothing the feed would deliver after
    the failed read is read. *)
Theorem read_failure_ends_ingestion ms tus rest g g' :
  Forall2 (λ om tu, ∃ m, om = Some m ∧ asTickerUpdate m = Some tu) ms tus →
  applyUpdates tus g = Ok g' →
  ingest (ms ++ None :: rest) g = (readFailed, g').
Proof.
  intros Hdec Happ. by rewrite (ingest_prefix _ _ _ _ _ Hdec Happ).
Qed.

Lemma read_failure_ends_ingestion_witness :
  ingest ([Some (tickerMessage ethbtcTicker)]
          ++ None :: [Some (tickerMessage btcusdTicker)]) sampleGlobals
  = (readFailed, sampleQuoted).
Proof.
  apply (read_failure_ends_ingestion [Some (tickerMessage ethbtcTicker)]
           [ethbtcTicker] [Some (tickerMessage btcusdTicker)]
           sampleGlobals sampleQuoted).
  - repeat constructor. by eexists.
  - reflexivity.
Defined.

Lemma setCurrencyInfo_wf tu g g' :
  wf g → setCurrencyInfo tu g = Ok g' →
  wf g' ∧ symbolToIndex g' = symbolToIndex g.
Proof.
  intros Hwf Hset. by destruct (writeQuote_wf _ _ _ _ Hwf Hset) as (? & _ & ? & _).
Qed.

(** X6: two updates in a row.  When both go to the same slot the second
    overwrites the first: the result is that of the second alone.  When
    they go to different slots their order does not matter. *)
Theorem updates_overwrite_and_commute g tu1 tu2 :
  reachable g →
  (default 0 (symbolToIndex g !! Params_Symbol tu1)
   = default 0 (symbolToIndex g !! Params_Symbol tu2) →
   applyUpdates [tu1; tu2] g = applyUpdates [tu2] g)
  ∧ (default 0 (symbolToIndex g !! Params_Symbol tu1)
     ≠ default 0 (symbolToIndex g !! Params_Symbol tu2) →
     applyUpdates [tu1; tu2] g = applyUpdates [tu2; tu1] g).
Proof.
  intros Hwf%reachable_wf.
  assert (∀ tu tu', applyUpdates [tu; tu'] g =
            match currencies g !! default 0 (symbolToIndex g !! Params_Symbol tu) with
            | None => Panic
            | Some c =>
                let cs := <[default 0 (symbolToIndex g !! Params_Symbol tu)
                            := setQuote tu c]> (currencies g) in
                match cs !! default 0 (symbolToIndex g !! Params_Symbol tu') with
                | None => Panic
                | Some c' =>
                    Ok (with_currencies
                          (<[default 0 (symbolToIndex g !! Params_Symbol tu')
                             := setQuote tu' c']> cs) g)
                end
            end) as Htwo.
  { intros tu tu'. cbn [applyUpdates].
    destruct (setCurrencyInfo tu g) as [g1| |] eqn:Hset.
    - destruct (setCurrencyInfo_wf _ _ _ Hwf Hset) as [Hwf1 Hreg].
      unfold setCurrencyInfo in *.
      rewrite (writeQuote_wf_unfold _ _ _ Hwf) in Hset.
      destruct (currencies g !! _) as [c|]; [|done]. injection Hset as <-.
      cbn [rbind]. rewrite (writeQuote_wf_unfold _ _ _ Hwf1). cbn.
      match goal with
      | |- context [match ?l !! ?k with _ => _ end] => destruct (l !! k)
      end; reflexivity.
    - unfold setCurrencyInfo in Hset.
      rewrite (writeQuote_wf_unfold _ _ _ Hwf) in Hset.
      by destruct (currencies g !! _).
    - unfold setCurrencyInfo in Hset.
      rewrite (writeQuote_wf_unfold _ _ _ Hwf) in Hset.
      by destruct (currencies g !! _). }
  split.
  - intros Heq. rewrite Htwo. cbn [applyUpdates]. unfold setCurrencyInfo.
    rewrite (writeQuote_wf_unfold _ _ _ Hwf), <-Heq.
    destruct (currencies g !! _) as [c|] eqn:Hc; [|done]. cbn.
    rewrite list_lookup_insert_eq by (by eapply lookup_lt_Some).
    by rewrite list_insert_insert_eq.
  - intros Hne. rewrite !Htwo.
    destruct (currencies g !! default 0 (symbolToIndex g !! Params_Symbol tu1))
      as [c1|] eqn:Hc1;
    destruct (currencies g !! default 0 (symbolToIndex g !! Params_Symbol tu2))
      as [c2|] eqn:Hc2; cbn.
    + rewrite !list_lookup_insert_ne by done. rewrite Hc1, Hc2.
      by rewrite list_insert_insert_ne.
    + by rewrite list_lookup_insert_ne, Hc2 by done.
    + by rewrite list_lookup_insert_ne, Hc1 by done.
    + done.
Qed.

Lemma updates_overwrite_and_commute_witness :
  applyUpdates [ethbtcTicker; ethbtcTicker2] sampleGlobals
  = applyUpdates [ethbtcTicker2] sampleGlobals
  ∧ applyUpdates [ethbtcTicker; btcusdTicker] sampleGlobals
    = applyUpdates [btcusdTicker; ethbtcTicker] sampleGlobals.
Proof.
  split.
  - apply (updates_overwrite_and_commute sampleGlobals ethbtcTicker ethbtcTicker2
             sample_reachable). reflexivity.
  - apply (updates_overwrite_and_commute sampleGlobals ethbtcTicker btcusdTicker
             sample_reachable). vm_compute. discriminate.
Defined.

(** X7: when a symbol is configured twice, at positions [i < j], the
    registry knows the later position only, so slot [i] (unless it is
    slot 0, where updates for unregistered symbols land) is never written
    by the ingestion loop: it keeps for ever the record initialization
    left there. *)
Theorem shadowed_slot_never_updated g0 tus g i j s :
  initialized g0 →
  applyUpdates tus g0 = Ok g →
  Symbols (appConf g0) !! i = Some s →
  Symbols (appConf g0) !! j = Some s →
  0 < i < j →
  currencies g !! i = currencies g0 !! i.
Proof.
  intros Hwf%initialized_wf Happ Hi Hj Hij.
  apply (applyUpdates_other_slots _ _ _ _ Hwf Happ).
  apply Forall_forall. intros tu _. cbn beta.
  destruct (symbolToIndex g0 !! Params_Symbol tu) as [k|] eqn:Hk; cbn; [|lia].
  rewrite (wf_registry _ Hwf) in Hk. apply registry_lookup in Hk as [Hk Hlast].
  intros ->. rewrite Hi in Hk. injection Hk as Hs.
  apply (Hlast j); [lia|by rewrite <-Hs].
Qed.

Lemma shadowed_slot_never_updated_witness :
  let conf := {| Hostname := "h"; Port := "p"; Symbols := ["ETHBTC"; "BTCUSD"; "BTCUSD"] |} in
  ∃ g, applyUpdates [btcusdTicker; ethbtcTicker] (doConfig (Some conf)) = Ok g
       ∧ currencies g !! 1 = Some zeroCurrencyInfo.
Proof.
  intros conf. eexists. split; [reflexivity|].
  rewrite (shadowed_slot_never_updated (doConfig (Some conf)) [btcusdTicker; ethbtcTicker]
             _ 1 2 "BTCUSD"); [reflexivity| |reflexivity..|lia].
  exists (Some conf), quietConn. by eexists _, _.
Defined.

(** ** Start-up on the wire *)

Lemma WriteMessage_ok cmd c :
  noWriteError c →
  ∃ c', WriteMessage cmd c = (None, c')
        ∧ inbound c' = inbound c
        ∧ sent c' = sent c ++ [cmd]
        ∧ noWriteError c'.
Proof.
  unfold noWriteError, WriteMessage. intros Hno.
  destruct (writeErrors c) as [|[] rest] eqn:Hw.
  - eexists. by split_and!.
  - by apply Forall_cons in Hno as [? _].
  - apply Forall_cons in Hno as [_ Hno]. eexists. by split_and!.
Qed.

Lemma getSymbol_ok symbol c m gs rest :
  noWriteError c → inbound c = Some m :: rest →
  asGetSymbolResponse m = Some gs →
  ∃ c', getSymbol symbol c = (inl gs, c')
        ∧ inbound c' = rest
        ∧ sent c' = sent c ++ [getSymbolCommand symbol]
        ∧ noWriteError c'.
Proof.
  intros Hno Hin Hm. unfold getSymbol.
  destruct (WriteMessage_ok (getSymbolCommand symbol) c Hno)
    as (c1 & Hw & Hin1 & Hsent1 & Hno1).
  unfold getSymbolCommand in Hw. rewrite Hw.
  unfold ReadMessage. rewrite Hin1, Hin, Hm.
  eexists. split_and!; done.
Qed.

Lemma getCurrency_ok currency c m gcs rest :
  noWriteError c → inbound c = Some m :: rest →
  asGetCurrencyResponse m = Some gcs →
  ∃ c', getCurrency currency c = (inl gcs, c')
        ∧ inbound c' = rest
        ∧ sent c' = sent c ++ [getCurrencyCommand currency]
        ∧ noWriteError c'.
Proof.
  intros Hno Hin Hm. unfold getCurrency.
  destruct (WriteMessage_ok (getCurrencyCommand currency) c Hno)
    as (c1 & Hw & Hin1 & Hsent1 & Hno1).
  unfold getCurrencyCommand in Hw. rewrite Hw.
  unfold ReadMessage. rewrite Hin1, Hin, Hm.
  eexists. split_and!; done.
Qed.

(** The start-up loop on a feed that answers every request. *)
Lemma initializeFrom_clean i syms ms rep rest c g :
  wf g → i + length syms ≤ length (currencies g) →
  decodeAs ms rep → length rep = length syms →
  noWriteError c →
  inbound c = flat_map roundReplies ms ++ rest →
  ∃ g' c',
    initializeFrom i syms c g = Ok (None, g', c')
    ∧ wf g' ∧ appConf g' = appConf g
    ∧ inbound c' = rest ∧ noWriteError c'
    ∧ sent c' = sent c ++ concat (zip_with roundCommands syms rep.*1)
    ∧ (∀ j, j < i ∨ i + length syms ≤ j → currencies g' !! j = currencies g !! j)
    ∧ (∀ k gs gcs r, rep !! k = Some (gs, gcs) →
                     currencies g !! (i + k) = Some r →
                     currencies g' !! (i + k) = Some (resolved gs gcs r)).
Proof.
  intros Hwf Hlen Hdec. revert i syms c g Hwf Hlen.
  induction Hdec as [|[m1 m2] [gs gcs] ms rep [Hm1 Hm2] _ IH];
    intros i syms c g Hwf Hlen Hrep Hno Hin.
  { destruct syms; [|done]. exists g, c. cbn in *.
    rewrite app_nil_r. split_and!; try done. }
  destruct syms as [|symbol syms]; [done|]. cbn in Hm1, Hm2, Hin, Hrep, Hlen.
  cbn [initializeFrom].
  destruct (getSymbol_ok symbol c m1 gs _ Hno Hin Hm1) as (c1 & -> & Hin1 & Hs1 & Hno1).
  destruct (lookup_lt_is_Some_2 (currencies g) i) as [r Hr]; [lia|].
  rewrite (assign_Ok _ _ _ _ _ Hr). cbn [rbind].
  rewrite (assign_again _ _ _ _ _ _ Hr). cbn [rbind].
  rewrite list_lookup_insert_eq by (by eapply lookup_lt_Some). cbn [rbind].
  assert (ID (setField fID (gs_Result_BaseCurrency gs)
                (setField fFeeCurrency (gs_Result_FeeCurrency gs) r))
          = gs_Result_BaseCurrency gs) as -> by reflexivity.
  destruct (getCurrency_ok (gs_Result_BaseCurrency gs) c1 m2 gcs _ Hno1 Hin1 Hm2)
    as (c2 & -> & Hin2 & Hs2 & Hno2).
  rewrite (assign_again _ _ _ _ _ _ Hr). cbn [rbind].
  fold (resolved gs gcs r).
  set (g2 := with_currencies (<[i := resolved gs gcs r]> (currencies g)) g).
  assert (wf g2) as Hwf2.
  { apply with_currencies_wf; [done|]. apply length_insert. }
  destruct (IH (S i) syms c2 g2 Hwf2) as (g' & c' & Hrun & Hwf' & Ha & Hin' & Hno' & Hs' & Hframe & Hres).
  { cbn. rewrite length_insert. lia. }
  { lia. }
  { done. }
  { done. }
  exists g', c'. split_and!; try done.
  - rewrite Hs', Hs2, Hs1. cbn. by rewrite <-!app_assoc.
  - intros j Hj. cbn [length] in Hj. rewrite Hframe by lia. cbn. apply list_lookup_insert_ne. lia.
  - intros [|k] gs' gcs' r' Hk Hr'.
    + cbn in Hk. rewrite Nat.add_0_r in *. simplify_eq.
      rewrite Hframe by lia. cbn.
      apply list_lookup_insert_eq. by eapply lookup_lt_Some.
    + cbn in Hk. replace (i + S k) with (S i + k) in * by lia.
      apply (Hres k gs' gcs' r' Hk). cbn.
      rewrite list_lookup_insert_ne by lia. done.
Qed.

(** Start-up on a feed that answers every request, from the globals of
    [doConfig]. *)
Lemma initializeCurrencyInfo_clean env ms rep rest c :
  decodeAs ms rep →
  length rep = length (Symbols (appConf (doConfig env))) →
  noWriteError c →
  inbound c = flat_map roundReplies ms ++ rest →
  ∃ g' c',
    initializeCurrencyInfo c (doConfig env) = Ok (None, g', c')
    ∧ wf g' ∧ appConf g' = appConf (doConfig env)
    ∧ currencies g' = map (λ r, resolved (fst r) (snd r) zeroCurrencyInfo) rep
    ∧ inbound c' = rest ∧ noWriteError c'
    ∧ sent c' = sent c
        ++ concat (zip_with roundCommands (Symbols (appConf (doConfig env))) rep.*1).
Proof.
  intros Hdec Hlen Hno Hin.
  destruct (initializeFrom_clean 0 (Symbols (appConf (doConfig env))) ms rep rest c
              (doConfig env))
    as (g' & c' & Hrun & Hwf' & Ha & Hin' & Hno' & Hs & _ & Hres); try done.
  { apply doConfig_wf. }
  { cbn. by rewrite length_replicate. }
  exists g', c'. split_and!; try done.
  apply list_eq. intros k. rewrite list_lookup_fmap.
  destruct (rep !! k) as [[gs gcs]|] eqn:Hk; cbn.
  - apply (Hres k gs gcs zeroCurrencyInfo Hk).
    apply lookup_lt_Some in Hk. cbn [doConfig currencies Nat.add].
    apply lookup_replicate_2. cbn [doConfig appConf] in Hlen. lia.
  - apply lookup_ge_None_2. rewrite (wf_currencies _ Hwf'), Ha, <-Hlen.
    by apply lookup_ge_None_1.
Qed.

(** X8: on a connection on which no write fails and whose next messages
    decode, pair by pair, as the replies to the [getSymbol] and
    [getCurrency] requests of the configured symbols, initialization
    returns [nil]; slot [k] then holds the base currency and fee currency
    of the [k]-th [getSymbol] reply and the full name of the [k]-th
    [getCurrency] reply, with empty quote fields; the requests sent are,
    symbol by symbol, [getSymbol] for the symbol and [getCurrency] for the
    base currency just received; and exactly those replies are consumed. *)
Theorem initialization_resolves_every_symbol env ms rep rest c :
  decodeAs ms rep →
  length rep = length (Symbols (appConf (doConfig env))) →
  noWriteError c →
  inbound c = flat_map roundReplies ms ++ rest →
  ∃ g' c',
    initializeCurrencyInfo c (doConfig env) = Ok (None, g', c')
    ∧ currencies g' = map (λ r, resolved (fst r) (snd r) zeroCurrencyInfo) rep
    ∧ inbound c' = rest
    ∧ sent c' = sent c
        ++ concat (zip_with roundCommands (Symbols (appConf (doConfig env))) rep.*1).
Proof.
  intros Hdec Hlen Hno Hin.
  destruct (initializeCurrencyInfo_clean env ms rep rest c Hdec Hlen Hno Hin)
    as (g' & c' & Hrun & _ & _ & Hcs & Hin' & _ & Hs).
  exists g', c'. by split_and!.
Qed.

Lemma initialization_resolves_every_symbol_witness :
  ∃ g' c',
    initializeCurrencyInfo sampleConn (doConfig (Some sampleConf)) = Ok (None, g', c')
    ∧ currencies g' = sampleStore
    ∧ inbound c' = []
    ∧ sent c' = [getSymbolCommand "ETHBTC"; getCurrencyCommand "ETH";
                 getSymbolCommand "BTCUSD"; getCurrencyCommand "BTC"].
Proof.
  destruct (initialization_resolves_every_symbol (Some sampleConf)
              sampleRounds (omap decodePair sampleRounds) [] sampleConn)
    as (g' & c' & Hrun & Hcs & Hin & Hs).
  - repeat constructor.
  - reflexivity.
  - constructor.
  - reflexivity.
  - exists g', c'. split_and!; [exact Hrun|exact Hcs|exact Hin|exact Hs].
Defined.

(** A request and its reply: one command and one message when it
    succeeds, at most one of each when it fails. *)
Lemma WriteMessage_counts cmd c e c1 :
  WriteMessage cmd c = (e, c1) →
  inbound c1 = inbound c
  ∧ length (sent c1) = length (sent c) + (match e with Some _ => 0 | None => 1 end).
Proof.
  unfold WriteMessage.
  destruct (writeErrors c) as [|[] ?]; intros [= <- <-]; cbn;
    rewrite ?length_app; cbn; split; (lia || done).
Qed.

Lemma ReadMessage_counts c r c1 :
  ReadMessage c = (r, c1) →
  sent c1 = sent c
  ∧ length (inbound c1) ≤ length (inbound c) ≤ length (inbound c1) + 1
  ∧ match r with
    | inl _ => length (inbound c) = length (inbound c1) + 1
    | inr _ => True
    end.
Proof.
  unfold ReadMessage.
  destruct (inbound c) as [|[] ?] eqn:Hin; intros [= <- <-]; cbn;
    rewrite ?Hin; cbn; split_and!; (lia || done).
Qed.

Lemma getSymbol_counts symbol c r c1 :
  getSymbol symbol c = (r, c1) →
  length (sent c) ≤ length (sent c1) ≤ length (sent c) + 1
  ∧ length (inbound c1) ≤ length (inbound c) ≤ length (inbound c1) + 1
  ∧ match r with
    | inl _ => length (sent c1) = length (sent c) + 1
               ∧ length (inbound c) = length (inbound c1) + 1
    | inr _ => True
    end.
Proof.
  unfold getSymbol.
  destruct (WriteMessage _ c) as [[e|] cw] eqn:Hw;
    destruct (WriteMessage_counts _ _ _ _ Hw) as [Hwi Hws].
  - intros [= <- <-]. rewrite Hwi. split_and!; (lia || done).
  - destruct (ReadMessage cw) as [[m|e] cr] eqn:Hr;
      destruct (ReadMessage_counts _ _ _ Hr) as (Hrs & Hri & Hrx).
    + destruct (asGetSymbolResponse m); intros [= <- <-];
        rewrite Hrs, <-Hwi; split_and!; (lia || done).
    + intros [= <- <-]. rewrite Hrs, <-Hwi. split_and!; (lia || done).
Qed.

Lemma getCurrency_counts currency c r c1 :
  getCurrency currency c = (r, c1) →
  length (sent c) ≤ length (sent c1) ≤ length (sent c) + 1
  ∧ length (inbound c1) ≤ length (inbound c) ≤ length (inbound c1) + 1
  ∧ match r with
    | inl _ => length (sent c1) = length (sent c) + 1
               ∧ length (inbound c) = length (inbound c1) + 1
    | inr _ => True
    end.
Proof.
  unfold getCurrency.
  destruct (WriteMessage _ c) as [[e|] cw] eqn:Hw;
    destruct (WriteMessage_counts _ _ _ _ Hw) as [Hwi Hws].
  - intros [= <- <-]. rewrite Hwi. split_and!; (lia || done).
  - destruct (ReadMessage cw) as [[m|e] cr] eqn:Hr;
      destruct (ReadMessage_counts _ _ _ Hr) as (Hrs & Hri & Hrx).
    + destruct (asGetCurrencyResponse m); intros [= <- <-];
        rewrite Hrs, <-Hwi; split_and!; (lia || done).
    + intros [= <- <-]. rewrite Hrs, <-Hwi. split_and!; (lia || done).
Qed.

(** The start-up loop when it returns an error: it stopped in some round
    [k], after [k] complete rounds of two requests and two replies each,
    leaving every later slot untouched. *)
Lemma initializeFrom_error i syms c g err g' c' :
  wf g → i + length syms ≤ length (currencies g) →
  initializeFrom i syms c g = Ok (Some err, g', c') →
  ∃ k, k < length syms
       ∧ (∀ j, i + k < j → currencies g' !! j = currencies g !! j)
       ∧ length (sent c) + 2 * k ≤ length (sent c') ≤ length (sent c) + 2 * k + 2
       ∧ length (inbound c') + 2 * k ≤ length (inbound c)
         ≤ length (inbound c') + 2 * k + 2.
Proof.
  revert i c g. induction syms as [|symbol syms IH]; intros i c g Hwf Hlen Hrun;
    cbn [initializeFrom length] in *; [done|].
  destruct (getSymbol symbol c) as [[gs|e] c1] eqn:Hgs;
    destruct (getSymbol_counts _ _ _ _ Hgs) as (Hs1 & Hi1 & Hx1).
  2:{ injection Hrun as <- <- <-. exists 0. split_and!; (lia || done). }
  destruct (lookup_lt_is_Some_2 (currencies g) i) as [r Hr]; [lia|].
  rewrite (assign_Ok _ _ _ _ _ Hr) in Hrun. cbn [rbind] in Hrun.
  rewrite (assign_again _ _ _ _ _ _ Hr) in Hrun. cbn [rbind] in Hrun.
  rewrite list_lookup_insert_eq in Hrun by (by eapply lookup_lt_Some).
  cbn [rbind] in Hrun.
  destruct (getCurrency _ c1) as [[gcs|e] c2] eqn:Hgc;
    destruct (getCurrency_counts _ _ _ _ Hgc) as (Hs2 & Hi2 & Hx2).
  2:{ injection Hrun as <- <- <-. exists 0. split_and!; try lia.
      intros j Hj. cbn. apply list_lookup_insert_ne. lia. }
  rewrite (assign_again _ _ _ _ _ _ Hr) in Hrun. cbn [rbind] in Hrun.
  apply IH in Hrun as (k & Hk & Hframe & Hsent & Hinb).
  - exists (S k). split_and!; try lia.
    intros j Hj. rewrite Hframe by lia. cbn. apply list_lookup_insert_ne. lia.
  - apply with_currencies_wf; [done|]. apply length_insert.
  - cbn. rewrite length_insert. lia.
Qed.

(** X9: when initialization returns an error it stopped in the round of
    some symbol [k], after [k] complete rounds: every slot after [k] is
    still the zero record, and between [2k] and [2k+2] requests were sent
    and as many messages consumed at most, so no request was made for any
    later symbol. *)
Theorem failed_initialization_stops env c err g' c' :
  initializeCurrencyInfo c (doConfig env) = Ok (Some err, g', c') →
  ∃ k, k < length (Symbols (appConf (doConfig env)))
       ∧ (∀ j, k < j < length (Symbols (appConf (doConfig env))) →
               currencies g' !! j = Some zeroCurrencyInfo)
       ∧ length (sent c) + 2 * k ≤ length (sent c') ≤ length (sent c) + 2 * k + 2
       ∧ length (inbound c') + 2 * k ≤ length (inbound c)
         ≤ length (inbound c') + 2 * k + 2.
Proof.
  intros Hrun. apply initializeFrom_error in Hrun as (k & Hk & Hframe & Hs & Hi).
  - exists k. split_and!; try lia. intros j Hj.
    rewrite Hframe by lia. cbn [doConfig currencies appConf] in *.
    apply lookup_replicate_2. lia.
  - apply doConfig_wf.
  - cbn. by rewrite length_replicate.
Qed.

Lemma failed_initialization_stops_witness :
  let conf := {| Hostname := "h"; Port := "p"; Symbols := ["ETHBTC"; "BTCUSD"; "LTCBTC"] |} in
  ∃ g' c', initializeCurrencyInfo brokenConn (doConfig (Some conf))
           = Ok (Some errUnmarshal, g', c')
           ∧ currencies g' !! 2 = Some zeroCurrencyInfo.
Proof.
  intros conf. eexists _, _. split; [reflexivity|].
  match goal with
  | |- currencies ?g !! _ = _ =>
      destruct (failed_initialization_stops (Some conf) brokenConn errUnmarshal g
                  {| inbound := []; writeErrors := [];
                     sent := [getSymbolCommand "ETHBTC"; getCurrencyCommand "ETH";
                              getSymbolCommand "BTCUSD"] |} eq_refl)
        as (k & Hk & Hzero & Hs & _)
  end.
  cbn in Hs, Hk. apply Hzero. cbn. lia.
Defined.

(** X10: the subscription loop reads nothing and sends one
    [subscribeTicker] per configured symbol, in order, until a write fails:
    without a failing write all are sent; otherwise the command of the first
    failing write and every later one are not sent. *)
Theorem subscribeAll_sends_in_order syms c :
  inbound (snd (subscribeAll syms c)) = inbound c
  ∧ match fst (subscribeAll syms c) with
    | None =>
        sent (snd (subscribeAll syms c)) = sent c ++ map subscribeTickerCommand syms
        ∧ Forall (λ b, b = false) (take (length syms) (writeErrors c))
    | Some err =>
        err = errWrite
        ∧ ∃ k, k < length syms
               ∧ writeErrors c !! k = Some true
               ∧ Forall (λ b, b = false) (take k (writeErrors c))
               ∧ sent (snd (subscribeAll syms c))
                 = sent c ++ map subscribeTickerCommand (take k syms)
    end.
Proof.
  revert c. induction syms as [|symbol syms IH]; intros c; cbn [subscribeAll].
  { cbn. rewrite app_nil_r. by split_and!. }
  unfold subscribeToTicker, WriteMessage.
  fold (subscribeTickerCommand symbol).
  destruct (writeErrors c) as [|[] rest] eqn:Hw; cbn [fst snd].
  - match goal with
    | |- context [subscribeAll syms ?c1] =>
        destruct (IH c1) as [Hin Hrest]; destruct (subscribeAll syms c1) as [[e|] c2]
    end; cbn [fst snd inbound sent writeErrors] in *.
    + destruct Hrest as (-> & k & Hk & Hbad & _). by destruct k.
    + destruct Hrest as [-> _]. split_and!; [done| |done].
      by rewrite <-app_assoc.
  - split; [done|]. split; [done|]. exists 0. cbn. rewrite app_nil_r.
    split_and!; (lia || done).
  - match goal with
    | |- context [subscribeAll syms ?c1] =>
        destruct (IH c1) as [Hin Hrest]; destruct (subscribeAll syms c1) as [[e|] c2]
    end; cbn [fst snd inbound sent writeErrors] in *.
    + destruct Hrest as (-> & k & Hk & Hbad & Hgood & ->).
      split; [done|]. split; [done|]. exists (S k). cbn.
      split_and!; [lia|done|by constructor|by rewrite <-app_assoc].
    + destruct Hrest as [-> Hgood]. split_and!; [done| |by constructor].
      by rewrite <-app_assoc.
Qed.

Lemma subscribeAll_sends_in_order_witness :
  let c := {| inbound := []; writeErrors := [false; true]; sent := [] |} in
  fst (subscribeAll ["ETHBTC"; "BTCUSD"; "LTCBTC"] c) = Some errWrite
  ∧ sent (snd (subscribeAll ["ETHBTC"; "BTCUSD"; "LTCBTC"] c))
    = [subscribeTickerCommand "ETHBTC"].
Proof.
  intros c.
  pose proof (subscribeAll_sends_in_order ["ETHBTC"; "BTCUSD"; "LTCBTC"] c) as [_ H].
  destruct (fst (subscribeAll ["ETHBTC"; "BTCUSD"; "LTCBTC"] c)) as [e|] eqn:He;
    [|discriminate He].
  destruct H as (-> & k & _ & _ & _ & _). split; reflexivity.
Defined.

Lemma subscribeAll_noWriteError syms c :
  noWriteError c →
  ∃ c', subscribeAll syms c = (None, c')
        ∧ inbound c' = inbound c
        ∧ sent c' = sent c ++ map subscribeTickerCommand syms.
Proof.
  revert c. induction syms as [|symbol syms IH]; intros c Hno; cbn [subscribeAll].
  { exists c. cbn. by rewrite app_nil_r. }
  unfold subscribeToTicker.
  destruct (WriteMessage_ok (subscribeTickerCommand symbol) c Hno)
    as (c1 & Hw & Hin1 & Hs1 & Hno1).
  unfold subscribeTickerCommand in Hw. rewrite Hw.
  destruct (IH c1 Hno1) as (c' & -> & Hin' & Hs').
  exists c'. split_and!; [done|congruence|].
  rewrite Hs', Hs1. cbn. by rewrite <-app_assoc.
Qed.

Lemma globals_eq g g' :
  appConf g = appConf g' → currencies g = currencies g' →
  currencyInfoLock g = currencyInfoLock g' → symbolToIndex g = symbolToIndex g' →
  g = g'.
Proof. destruct g, g'; cbn; by intros -> -> -> ->. Qed.

Lemma applyUpdates_returns tus g :
  reachable g → Symbols (appConf g) ≠ [] →
  ∃ g', applyUpdates tus g = Ok g'.
Proof.
  revert g. induction tus as [|tu tus IH]; intros g Hreach Hne; cbn.
  { by exists g. }
  destruct (setCurrencyInfo_cases g tu Hreach) as [[Hnil _]|(_ & g1 & -> & Hreach1 & Ha)];
    [done|]. cbn. apply IH; [done|by rewrite Ha].
Qed.

(** Given turns enough, the goroutine ends as [ingest] says. *)
Lemma ingestFor_ingest inb g :
  ∃ rest, ingestFor (S (length inb)) inb g
          = (Some (fst (ingest inb g)), snd (ingest inb g), rest).
Proof.
  revert g. induction inb as [|[m|] inb IH]; intros g; cbn [ingestFor ingest length].
  - by eexists.
  - destruct (asTickerUpdate m) as [tu|]; [|by eexists].
    destruct (setCurrencyInfo tu g) as [g1| |]; [apply IH|by eexists..].
  - by eexists.
Qed.

(** The goroutine over messages that decode, turn by turn. *)
Lemma ingestFor_decoded ms tus rest g g' k :
  Forall2 (λ om tu, ∃ m, om = Some m ∧ asTickerUpdate m = Some tu) ms tus →
  applyUpdates tus g = Ok g' →
  ingestFor (length ms + k) (ms ++ rest) g = ingestFor k rest g'.
Proof.
  intros Hdec. revert g.
  induction Hdec as [|om tu ms tus (m & -> & Hm) _ IH]; intros g Happ; cbn in *.
  - by simplify_eq.
  - rewrite Hm. destruct (setCurrencyInfo tu g) as [g1| |]; cbn in Happ; [|done..].
    by apply IH.
Qed.

(** X11: start-up end to end on a feed that answers, the ingestion
    goroutine included.  The dial succeeds, the command line parses, no
    write fails, the first messages decode as the replies of the start-up
    rounds of a non-empty symbol list, and the messages [ticks] after them
    decode as ticker updates.  If the goroutine has taken just these when
    the main goroutine is through, the HTTP server is started: the two
    requests of each symbol were sent in configuration order, then one
    [subscribeTicker] per symbol; the store is the resolved one with the
    updates of [ticks] applied, the static fields of every slot being those
    resolved.  If nothing follows [ticks], the same holds however many
    more turns the goroutine has taken; if what follows is a message that
    does not decode and the goroutine has got to it, the process has ended
    with its panic and the server is not started. *)
Theorem startup_on_answering_feed env ms rep ticks tus rest c :
  decodeAs ms rep →
  length rep = length (Symbols (appConf (doConfig env))) →
  rep ≠ [] →
  noWriteError c →
  Forall2 (λ om tu, ∃ m, om = Some m ∧ asTickerUpdate m = Some tu) ticks tus →
  inbound c = flat_map roundReplies ms ++ ticks ++ rest →
  let g0 := with_currencies
              (map (λ r, resolved (fst r) (snd r) zeroCurrencyInfo) rep) (doConfig env) in
  ∃ g' c',
    applyUpdates tus g0 = Ok g'
    ∧ keeps staticFields (currencies g0) (currencies g')
    ∧ inbound c' = rest
    ∧ sent c' = sent c
        ++ concat (zip_with roundCommands (Symbols (appConf (doConfig env))) rep.*1)
        ++ map subscribeTickerCommand (Symbols (appConf (doConfig env)))
    ∧ startup true env (Some c) (length ticks) = listening g' c'
    ∧ (rest = [] → ∀ k, startup true env (Some c) (length ticks + k) = listening g' c')
    ∧ (∀ m more k, rest = Some m :: more → asTickerUpdate m = None →
                   startup true env (Some c) (length ticks + S k) = panicked).
Proof.
  intros Hdec Hlen Hne Hno Hticks Hin g0.
  destruct (initializeCurrencyInfo_clean env ms rep (ticks ++ rest) c Hdec Hlen Hno Hin)
    as (g1 & c1 & Hrun & Hwf1 & Ha & Hcs & Hin1 & Hno1 & Hs1).
  assert (g1 = g0) as ->.
  { apply globals_eq; cbn; [done|done| |].
    - by rewrite (wf_locks _ Hwf1), Ha.
    - by rewrite (wf_registry _ Hwf1), Ha. }
  assert (reachable g0) as Hreach.
  { exists g0, []. split; [|done]. by exists env, c, None, c1. }
  destruct (applyUpdates_returns tus g0 Hreach) as [g' Happ].
  { rewrite Ha, <-length_zero_iff_nil, <-Hlen, length_zero_iff_nil. done. }
  destruct (applyUpdates_wf _ _ _ Hwf1 Happ) as (_ & _ & _ & Hkeeps).
  destruct (subscribeAll_noWriteError (Symbols (appConf g0)) c1 Hno1)
    as (c2 & Hsub & Hin2 & Hs2).
  assert (∀ k, startup true env (Some c) (length ticks + k)
               = match ingestFor k rest g' with
                 | (Some decodePanic, _, _) => panicked
                 | (Some storePanic, _, _) => panicked
                 | (_, g2, rest2) =>
                     listening g2 {| inbound := rest2; writeErrors := writeErrors c2;
                                     sent := sent c2 |}
                 end) as Hstart.
  { intros k. unfold startup.
    rewrite (main_drops_init_error env c None g0 c1 Hrun), Hsub.
    unfold besideIngestion. rewrite Hin2, Hin1.
    by rewrite (ingestFor_decoded ticks tus rest g0 g' k Hticks Happ). }
  exists g', {| inbound := rest; writeErrors := writeErrors c2; sent := sent c2 |}.
  split_and!; [done|done|done| | | |].
  - cbn. rewrite Hs2, Hs1. by rewrite <-app_assoc.
  - specialize (Hstart 0). by rewrite Nat.add_0_r in Hstart.
  - intros -> k. rewrite Hstart. by destruct k.
  - intros m more k -> Hm. rewrite Hstart. cbn. by rewrite Hm.
Qed.

Lemma startup_on_answering_feed_witness :
  ∃ c',
    startup true (Some sampleConf) (Some tickingFeed) 1 = listening sampleQuoted c'
    ∧ startup true (Some sampleConf) (Some tickingFeed) 2 = panicked
    ∧ sent c' = [getSymbolCommand "ETHBTC"; getCurrencyCommand "ETH";
                 getSymbolCommand "BTCUSD"; getCurrencyCommand "BTC";
                 subscribeTickerCommand "ETHBTC"; subscribeTickerCommand "BTCUSD"].
Proof.
  destruct (startup_on_answering_feed (Some sampleConf)
              sampleRounds (omap decodePair sampleRounds)
              [Some (tickerMessage ethbtcTicker)] [ethbtcTicker] [Some garbage]
              tickingFeed)
    as (g' & c' & Happ & _ & _ & Hs & Hlisten & _ & Hpanic).
  - repeat constructor.
  - reflexivity.
  - discriminate.
  - constructor.
  - repeat constructor. by eexists.
  - reflexivity.
  - change (Ok sampleQuoted = Ok g') in Happ. injection Happ as <-.
    exists c'. split_and!; [exact Hlisten| |exact Hs].
    exact (Hpanic garbage [] 0 eq_refl eq_refl).
Defined.

(** ** Goroutines: what a race leaves behind *)

Lemma sameElsewhere_refl i g : sameElsewhere i g g.
Proof. by split_and!. Qed.

Lemma sameElsewhere_trans i g1 g2 g3 :
  sameElsewhere i g1 g2 → sameElsewhere i g2 g3 → sameElsewhere i g1 g3.
Proof.
  intros (Ha & Hs & Hc & Hl & H) (Ha' & Hs' & Hc' & Hl' & H').
  split_and!; try congruence.
  intros j Hj. destruct (H j Hj) as [<- <-]. by apply H'.
Qed.

(** One access changes nothing outside its slot. *)
Lemma stepInstr_sameElsewhere ins loc g loc' g' :
  stepInstr ins loc g = Ok (loc', g') → sameElsewhere (instrSlot ins) g g'.
Proof.
  destruct ins as [i|i|i f v|i f]; cbn [stepInstr instrSlot].
  - unfold lockAt. destruct (currencyInfoLock g !! i) as [[]|]; try done.
    intros [= <- <-]. split_and!; try done; cbn.
    + apply length_insert.
    + intros j Hj. split; [done|]. by apply list_lookup_insert_ne.
  - unfold unlockAt. destruct (currencyInfoLock g !! i) as [[]|]; try done.
    intros [= <- <-]. split_and!; try done; cbn.
    + apply length_insert.
    + intros j Hj. split; [done|]. by apply list_lookup_insert_ne.
  - unfold assign. destruct (currencies g !! i); [|done].
    intros [= <- <-]. split_and!; try done; cbn.
    + apply length_insert.
    + intros j Hj. split; [|done]. by apply list_lookup_insert_ne.
  - destruct (currencies g !! i); [|done].
    intros [= <- <-]. apply sameElsewhere_refl.
Qed.

Lemma code_slots i tu :
  Forall (λ ins, instrSlot ins = i) (writeQuoteCode i tu)
  ∧ Forall (λ ins, instrSlot ins = i) (readOneCode i).
Proof. split; repeat constructor. Qed.

(** While the writer and the reader of slot [i] run, everything outside
    the slot stays as it was. *)
Lemma race_sameElsewhere i tu r1 g m m' :
  raceInv i tu r1 m → sameElsewhere i g (shared m) → mstep m m' →
  sameElsewhere i g (shared m').
Proof.
  intros (kw & kr & rX & Hth & _) Hsame [t Hstep].
  eapply sameElsewhere_trans; [exact Hsame|].
  unfold stepThread in Hstep. rewrite Hth in Hstep.
  destruct (code_slots i tu) as [HW HR].
  destruct t as [|[|t]]; cbn [lookup list_lookup] in Hstep; [| |done].
  - destruct (drop kw (writeQuoteCode i tu)) as [|ins rest] eqn:Hcode; [done|].
    assert (instrSlot ins = i) as <-.
    { apply (Forall_drop _ kw) in HW. rewrite Hcode in HW.
      by apply Forall_cons in HW as [? _]. }
    destruct (stepInstr ins _ (shared m)) as [[loc' g']| |] eqn:Hins; [|done..].
    injection Hstep as <-. by eapply stepInstr_sameElsewhere.
  - destruct (drop kr (readOneCode i)) as [|ins rest] eqn:Hcode; [done|].
    assert (instrSlot ins = i) as <-.
    { apply (Forall_drop _ kr) in HR. rewrite Hcode in HR.
      by apply Forall_cons in HR as [? _]. }
    destruct (stepInstr ins _ (shared m)) as [[loc' g']| |] eqn:Hins; [|done..].
    injection Hstep as <-. by eapply stepInstr_sameElsewhere.
Qed.

Lemma race_sameElsewhere_rtc i tu r1 g m m' :
  raceInv i tu r1 m → sameElsewhere i g (shared m) → rtc mstep m m' →
  raceInv i tu r1 m' ∧ sameElsewhere i g (shared m').
Proof.
  intros Hinv Hsame Hsteps. induction Hsteps as [|m0 m1 m2 Hstep _ IH]; [done|].
  apply IH; [by eapply raceInv_step|by eapply race_sameElsewhere].
Qed.

(** X13: a read racing a write does not disturb it.  However the accesses
    of [writeQuote slot tu2] and of one [readOne slot] interleave, once
    both have finished the globals are exactly those the write leaves
    when it runs alone: the slot holds the new quote, its mutex is free,
    and nothing else has changed. *)
Theorem write_survives_racing_read g0 g1 slot tu1 tu2 m :
  writeQuote slot tu1 g0 = Ok g1 →
  rtc mstep (writerAndReader slot tu2 g1) m →
  finished m →
  writeQuote slot tu2 g1 = Ok (shared m).
Proof.
  intros Hw Hsteps Hfin. rewrite writeQuote_unfold in Hw.
  destruct (currencyInfoLock g0 !! slot) as [[]|] eqn:Hl; try done.
  destruct (currencies g0 !! slot) as [c0|] eqn:Hc; [|done].
  injection Hw as <-.
  set (g1 := with_currencies _ g0) in *.
  assert (currencies g1 !! slot = Some (setQuote tu1 c0)) as Hc1.
  { cbn. apply list_lookup_insert_eq. by eapply lookup_lt_Some. }
  assert (currencyInfoLock g1 !! slot = Some false) as Hl1 by done.
  assert (raceInv slot tu2 (setQuote tu1 c0) m
          ∧ sameElsewhere slot g1 (shared m)) as [Hinv Hsame].
  { apply (race_sameElsewhere_rtc slot tu2 _ g1 (writerAndReader slot tu2 g1) m);
      [by apply raceInv_init|apply sameElsewhere_refl|exact Hsteps]. }
  destruct Hinv as (kw & kr & rX & Hth & Hkw & Hkr & _ & Hlock & Hrec & _).
  unfold finished in Hfin. rewrite Hth in Hfin.
  apply Forall_cons in Hfin as [HfW [HfR _]%Forall_cons]. cbn [code] in HfW, HfR.
  assert (kw = 8) as ->.
  { apply (f_equal length) in HfW. rewrite length_drop in HfW. cbn in HfW. lia. }
  assert (kr = 11) as ->.
  { apply (f_equal length) in HfR. rewrite length_drop in HfR. cbn in HfR. lia. }
  cbn in Hlock. change (take (8 - 1) (quoteStores tu2)) with (quoteStores tu2) in Hrec.
  change (applyStores (quoteStores tu2) (setQuote tu1 c0))
    with (setQuote tu2 (setQuote tu1 c0)) in Hrec.
  destruct Hsame as (Ha & Hs & Hlc & Hll & Helse).
  rewrite writeQuote_unfold, Hl1, Hc1. f_equal. apply globals_eq; cbn [with_currencies
    appConf currencies currencyInfoLock symbolToIndex]; try done.
  - apply list_eq. intros j. destruct (decide (j = slot)) as [->|Hne].
    + rewrite Hrec. apply list_lookup_insert_eq. by eapply lookup_lt_Some.
    + rewrite list_lookup_insert_ne by done. symmetry. by apply Helse.
  - apply list_eq. intros j. destruct (decide (j = slot)) as [->|Hne].
    + by rewrite Hlock, Hl1.
    + symmetry. by apply Helse.
Qed.

Lemma write_survives_racing_read_witness :
  writeQuote 0 ethbtcTicker2 sampleQuoted
  = Ok (shared (runSchedule readerFirst (writerAndReader 0 ethbtcTicker2 sampleQuoted))).
Proof.
  apply (write_survives_racing_read sampleGlobals sampleQuoted 0 ethbtcTicker).
  - reflexivity.
  - apply runSchedule_rtc.
  - vm_compute. repeat constructor.
Defined.

(** ** Goroutines on different slots *)

(** Closes the side conditions of [apartInv] after one access. *)
Ltac apart_side :=
  first
    [ done
    | lia
    | by cbn; rewrite list_lookup_insert_eq by done
    | by cbn; rewrite list_lookup_insert_ne by done ].

Ltac apart_store k :=
  match goal with
  | Hstep : _ = Some _, Hrec : currencies _ !! ?i = Some (applyStores _ _)
    |- apartInv ?i _ _ _ _ _ =>
      unfold stepInstr, assign in Hstep; rewrite Hrec in Hstep; held_norm;
      cbn in Hstep; simplify_eq;
      eexists k, _; held_norm; cbn [threads shared];
      split_and!; apart_side
  end.

Ltac apart_load k :=
  match goal with
  | Hstep : _ = Some _, Hrj : currencies _ !! ?j = Some ?rj
    |- apartInv _ ?j _ _ ?rj _ =>
      unfold stepInstr in Hstep; held_norm;
      rewrite Hrj in Hstep; cbn in Hstep; injection Hstep as <-;
      eexists _, k; held_norm; cbn [threads shared];
      split_and!; apart_side
  end.

Lemma apartInv_step i j tu r1 rj m m' :
  i ≠ j → apartInv i j tu r1 rj m → mstep m m' → apartInv i j tu r1 rj m'.
Proof.
  intros Hij (kw & kr & Hth & Hkw & Hkr & Hli & Hlj & Hrec & Hrj) [t Hstep].
  unfold stepThread in Hstep. rewrite Hth in Hstep.
  assert (i < length (currencyInfoLock (shared m))) by (by eapply lookup_lt_Some).
  assert (j < length (currencyInfoLock (shared m))) by (by eapply lookup_lt_Some).
  assert (i < length (currencies (shared m))) by (by eapply lookup_lt_Some).
  assert (j < length (currencies (shared m))) by (by eapply lookup_lt_Some).
  destruct t as [|[|t]]; cbn [lookup list_lookup] in Hstep; [| |done].
  - destruct kw as [|[|[|[|[|[|[|[|kw]]]]]]]];
      cbn [drop writeQuoteCode quoteStores map app fst snd] in Hstep;
      [ | apart_store 2 | apart_store 3 | apart_store 4 | apart_store 5
        | apart_store 6 | apart_store 7 | | by destruct kw].
    + unfold stepInstr, lockAt in Hstep. rewrite Hli in Hstep. held_norm.
      cbn in Hstep. simplify_eq.
      exists 1, kr. held_norm. cbn [threads shared]. split_and!; apart_side.
    + unfold stepInstr, unlockAt in Hstep. rewrite Hli in Hstep. held_norm.
      cbn in Hstep. simplify_eq.
      exists 8, kr. held_norm. cbn [threads shared]. split_and!; apart_side.
  - destruct kr as [|[|[|[|[|[|[|[|[|[|[|kr]]]]]]]]]]];
      cbn [drop readOneCode allFields map app] in Hstep;
      [ | apart_load 2 | apart_load 3 | apart_load 4 | apart_load 5
        | apart_load 6 | apart_load 7 | apart_load 8 | apart_load 9
        | apart_load 10 | | by destruct kr].
    + unfold stepInstr, lockAt in Hstep. rewrite Hlj in Hstep. held_norm.
      cbn in Hstep. simplify_eq.
      exists kw, 1. held_norm. cbn [threads shared]. split_and!; apart_side.
    + unfold stepInstr, unlockAt in Hstep. rewrite Hlj in Hstep. held_norm.
      cbn in Hstep. simplify_eq.
      exists kw, 11. held_norm. cbn [threads shared]. split_and!; apart_side.
Qed.

Lemma apartInv_rtc i j tu r1 rj m m' :
  i ≠ j → apartInv i j tu r1 rj m → rtc mstep m m' → apartInv i j tu r1 rj m'.
Proof. intros Hij Hinv Hsteps. induction Hsteps; eauto using apartInv_step. Qed.

(** Shows that the goroutine of the goal can make its next access. *)
Ltac apart_can_step :=
  eexists; unfold stepThread;
  match goal with
  | Hth : threads _ = _ |- _ => rewrite Hth
  end;
  cbn [lookup list_lookup drop writeQuoteCode readOneCode quoteStores allFields
       map app fst snd];
  unfold stepInstr, lockAt, unlockAt, assign;
  repeat match goal with
         | H : currencyInfoLock _ !! _ = Some _ |- _ => rewrite H
         | H : currencies _ !! _ = Some _ |- _ => rewrite H
         end;
  held_norm; reflexivity.

(** X14: a write and a read of different slots never wait for each other.
    With the ingestion goroutine writing slot [i] beside a handler reading
    slot [j], in every state any interleaving reaches, each of the two that
    has accesses left can make its next one at once; when both have
    finished the handler has copied the record of slot [j] as it was,
    slot [i] holds the record the write leaves when it runs alone, slot
    [j] is unchanged and both mutexes are free. *)
Theorem distinct_slots_never_wait g i j tu rj g' m :
  i ≠ j →
  currencies g !! j = Some rj →
  currencyInfoLock g !! j = Some false →
  writeQuote i tu g = Ok g' →
  rtc mstep (writerAndReaderOf i j tu g) m →
  (∀ t th, threads m !! t = Some th → code th ≠ [] →
           ∃ m', stepThread t m = Some m')
  ∧ (finished m →
     local <$> threads m !! 1 = Some rj
     ∧ currencies (shared m) !! i = currencies g' !! i
     ∧ currencies (shared m) !! j = Some rj
     ∧ currencyInfoLock (shared m) !! i = Some false
     ∧ currencyInfoLock (shared m) !! j = Some false).
Proof.
  intros Hij Hrj Hlj Hw Hsteps. rewrite writeQuote_unfold in Hw.
  destruct (currencyInfoLock g !! i) as [[]|] eqn:Hli; try done.
  destruct (currencies g !! i) as [ri|] eqn:Hri; [|done].
  injection Hw as <-.
  assert (apartInv i j tu ri rj m) as Hinv.
  { eapply apartInv_rtc; [done| |exact Hsteps].
    exists 0, 0. cbn [threads shared writerAndReaderOf]. split_and!; (done || lia). }
  destruct Hinv as (kw & kr & Hth & Hkw & Hkr & Hlwi & Hlwj & Hrec & Hrecj).
  split.
  - intros t th Ht Hcode. rewrite Hth in Ht.
    destruct t as [|[|t]]; cbn in Ht; [| |done]; injection Ht as <-; cbn [code] in Hcode.
    + destruct kw as [|[|[|[|[|[|[|[|kw]]]]]]]];
        [apart_can_step..|by destruct kw].
    + clear Hrec.
      destruct kr as [|[|[|[|[|[|[|[|[|[|[|kr]]]]]]]]]]];
        [apart_can_step..|by destruct kr].
  - intros Hfin. unfold finished in Hfin. rewrite Hth in Hfin.
    apply Forall_cons in Hfin as [HfW [HfR _]%Forall_cons]. cbn [code] in HfW, HfR.
    assert (kw = 8) as ->.
    { apply (f_equal length) in HfW. rewrite length_drop in HfW. cbn in HfW. lia. }
    assert (kr = 11) as ->.
    { apply (f_equal length) in HfR. rewrite length_drop in HfR. cbn in HfR. lia. }
    rewrite Hth. cbn [lookup list_lookup fmap option_fmap option_map local].
    split_and!; [by rewrite copyFields_all| |done|done|done].
    rewrite Hrec. cbn. symmetry. apply list_lookup_insert_eq. by eapply lookup_lt_Some.
Qed.

Lemma distinct_slots_never_wait_witness :
  let m := runSchedule [0; 1; 1; 0; 0; 1]
             (writerAndReaderOf 0 1 ethbtcTicker2 sampleQuoted) in
  (∃ m', stepThread 0 m = Some m') ∧ (∃ m', stepThread 1 m = Some m').
Proof.
  intros m.
  destruct (distinct_slots_never_wait sampleQuoted 0 1 ethbtcTicker2
              {| ID := "BTC"; FullName := "Bitcoin"; Ask := ""; Bid := ""; Last := "";
                 Open := ""; Low := ""; High := ""; FeeCurrency := "USD" |}
              (with_currencies
                 (<[0 := setQuote ethbtcTicker2
                           {| ID := "ETH"; FullName := "Ethereum"; Ask := "0.054464";
                              Bid := "0.054463"; Last := "0.054463"; Open := "0.057133";
                              Low := "0.053615"; High := "0.057559";
                              FeeCurrency := "BTC" |}]> (currencies sampleQuoted))
                 sampleQuoted)
              m) as [Hstep _].
  - lia.
  - reflexivity.
  - reflexivity.
  - reflexivity.
  - apply runSchedule_rtc.
  - split.
    + by eapply (Hstep 0); [reflexivity|].
    + by eapply (Hstep 1); [reflexivity|].
Defined.
